(** * The label-matrix utilities of [nucleus.object]

    A shallow embedding of [src/nucleus/object/__init__.py] and the
    properties its specification states about it.

    The module works on NumPy arrays, so the development starts with a
    small model of them: an array is a strided view onto a buffer that
    lives in a store, basic slicing produces another view onto the same
    buffer, and the allocating operations ([numpy.zeros], [astype], ...)
    add a buffer to the store.  Python functions become computations in a
    state-and-exception monad over that store. *)

From Stdlib Require Import ZArith Lia Ascii String.
From stdpp Require Import base tactics option list numbers strings pretty
  sorting.

(** ** Worlds, exceptions and the monad of Python computations *)

(** The exceptions the modelled code can raise.  [AssertionError] carries
    the message of the failed [assert], if it has one.  [Fault] is not a
    Python exception: it marks an access through an array descriptor whose
    buffer is not in the store, which no array built by the operations
    below can cause. *)
Inductive exn : Type :=
  | ValueError
  | IndexError
  | TypeError
  | AssertionError (msg : option string)
  | Fault.

Inductive outcome (A : Type) : Type :=
  | Ok (a : A)
  | Raise (e : exn).
Arguments Ok {A} a.
Arguments Raise {A} e.

(** The state a call can see or change: the buffers of the arrays (an
    array's buffer stays in the store once it is allocated, also when
    Python would have collected it), the state of NumPy's global random
    number generator, and the default-colormap preference of
    [nucleus.preferences]. *)
Record world : Type := World {
  heap : list (list Z);
  rng : Z;
  default_colormap : string
}.

Definition set_heap (h : list (list Z)) (w : world) : world :=
  World h (rng w) (default_colormap w).

Definition set_rng (s : Z) (w : world) : world :=
  World (heap w) s (default_colormap w).

Definition M (A : Type) : Type := world -> outcome A * world.

Definition ret {A} (a : A) : M A := fun w => (Ok a, w).

Definition raise {A} (e : exn) : M A := fun w => (Raise e, w).

Definition bind {A B} (m : M A) (k : A -> M B) : M B :=
  fun w =>
    match m w with
    | (Ok a, w') => k a w'
    | (Raise e, w') => (Raise e, w')
    end.

Declare Scope py_scope.
Delimit Scope py_scope with py.
Notation "'let*' x ':=' m 'in' k" := (bind m (fun x => k))
  (at level 10, x pattern, m at level 100, k at level 200) : py_scope.
Open Scope py_scope.

(** Access to the components of the world. *)
Definition get_heap : M (list (list Z)) := fun w => (Ok (heap w), w).

Definition put_heap (h : list (list Z)) : M unit :=
  fun w => (Ok tt, set_heap h w).

Definition get_rng : M Z := fun w => (Ok (rng w), w).

Definition put_rng (s : Z) : M unit := fun w => (Ok tt, set_rng s w).

(** An optional value that must be there; its absence is a [Fault]. *)
Definition expect {A} (o : option A) : M A :=
  match o with
  | Some a => ret a
  | None => raise Fault
  end.

(** [assert cond, msg]; the message is only built when the test fails,
    which a pure message makes unobservable. *)
Definition assert (cond : bool) (msg : option string) : M unit :=
  if cond then ret tt else raise (AssertionError msg).

(** [for x in xs: body x]. *)
Fixpoint for_each {A} (xs : list A) (body : A -> M unit) : M unit :=
  match xs with
  | [] => ret tt
  | x :: xs' => let* _ := body x in for_each xs' body
  end.

(** [[f x for x in xs]]. *)
Fixpoint map_M {A B} (f : A -> M B) (xs : list A) : M (list B) :=
  match xs with
  | [] => ret []
  | x :: xs' =>
      let* y := f x in
      let* ys := map_M f xs' in
      ret (y :: ys)
  end.

(** ** Arrays *)

Inductive dtype : Type :=
  | bool_ | int8 | int16 | int32 | int64
  | uint8 | uint16 | uint32
  | float32 | float64.

Global Instance dtype_eq_dec : EqDecision dtype.
Proof. solve_decision. Defined.

Definition is_integer (t : dtype) : bool :=
  match t with
  | int8 | int16 | int32 | int64 | uint8 | uint16 | uint32 => true
  | bool_ | float32 | float64 => false
  end.

(** An array descriptor: the buffer it views ([base], an index into the
    heap), the position of its first element, its shape, and for every
    axis the distance between neighbours, counted in elements.  A cell of
    a buffer holds the element's value for the integer types, 0 or 1 for
    [bool_], and the bit pattern of the number for the floating-point
    types (so that 0 is 0.0); only the rendering collaborators look inside
    floating-point cells. *)
Record ndarray : Type := NDArray {
  base : nat;
  offset : nat;
  shape : list nat;
  strides : list nat;
  arr_dtype : dtype
}.

Definition ndim (a : ndarray) : nat := length (shape a).

(** Number of elements of an array of shape [shp]. *)
Definition numel (shp : list nat) : nat := foldr Nat.mul 1 shp.

(** Strides of a freshly allocated (row-major) array. *)
Fixpoint c_strides (shp : list nat) : list nat :=
  match shp with
  | [] => []
  | _ :: rest => numel rest :: c_strides rest
  end.

Fixpoint dot (idx strd : list nat) : nat :=
  match idx, strd with
  | i :: idx', s :: strd' => i * s + dot idx' strd'
  | _, _ => 0
  end.

Definition flat_index (a : ndarray) (idx : list nat) : nat :=
  offset a + dot idx (strides a).

(** [idx] is a full index into an array of shape [shp]. *)
Fixpoint in_bounds (shp idx : list nat) : bool :=
  match shp, idx with
  | [], [] => true
  | s :: shp', i :: idx' => (i <? s) && in_bounds shp' idx'
  | _, _ => false
  end.

(** All full indices of a shape, in row-major order. *)
Fixpoint indices (shp : list nat) : list (list nat) :=
  match shp with
  | [] => [[]]
  | s :: rest => i ← seq 0 s; (cons i) <$> indices rest
  end.

(** Reading one cell through a descriptor. *)
Definition peek (h : list (list Z)) (a : ndarray) (idx : list nat) : option Z :=
  buf ← h !! base a; buf !! flat_index a idx.

(** The elements of an array in row-major order. *)
Definition elements (h : list (list Z)) (a : ndarray) : option (list Z) :=
  mapM (peek h a) (indices (shape a)).

(** A descriptor is valid in a world when its buffer is there and every
    index within its shape lands inside the buffer. *)
Definition valid (w : world) (a : ndarray) : bool :=
  (length (strides a) =? length (shape a)) &&
  match heap w !! base a with
  | Some buf =>
      forallb (fun idx => flat_index a idx <? length buf) (indices (shape a))
  | None => false
  end.

Module numpy.

(** [a[i, j, ...]] with one integer per axis. *)
Definition getitem (a : ndarray) (idx : list nat) : M Z :=
  if in_bounds (shape a) idx then
    let* h := get_heap in
    expect (peek h a idx)
  else raise IndexError.

(** Shape of [a[:n0, :n1, ...]]: slices clamp to the axis; [None] is a
    bare [:].  More slices than axes is an [IndexError]. *)
Fixpoint slice_shape (stops : list (option nat)) (shp : list nat)
  : option (list nat) :=
  match stops, shp with
  | [], _ => Some shp
  | _ :: _, [] => None
  | st :: stops', s :: shp' =>
      cons (match st with Some n => Nat.min n s | None => s end)
        <$> slice_shape stops' shp'
  end.

(** Basic slicing from the origin: a view, no copy. *)
Definition getslice (a : ndarray) (stops : list (option nat)) : M ndarray :=
  match slice_shape stops (shape a) with
  | Some shp => ret (NDArray (base a) (offset a) shp (strides a) (arr_dtype a))
  | None => raise IndexError
  end.

(** [a[i]] for a non-negative integer [i]: the view of one entry along
    the first axis. *)
Definition getrow (a : ndarray) (i : nat) : M ndarray :=
  match shape a, strides a with
  | s :: shp, st :: strd =>
      if i <? s then
        ret (NDArray (base a) (offset a + i * st) shp strd (arr_dtype a))
      else raise IndexError
  | _, _ => raise IndexError
  end.

(** A new buffer in the store. *)
Definition alloc (buf : list Z) : M nat :=
  let* h := get_heap in
  let* _ := put_heap (h ++ [buf]) in
  ret (length h).

Definition full (shp : list nat) (t : dtype) (v : Z) : M ndarray :=
  let* b := alloc (replicate (numel shp) v) in
  ret (NDArray b 0 shp (c_strides shp) t).

Definition zeros (shp : list nat) (t : dtype) : M ndarray := full shp t 0.

Definition ones (shp : list nat) (t : dtype) : M ndarray := full shp t 1.

(** All elements, row-major (what [a.flat] iterates over). *)
Definition flat (a : ndarray) : M (list Z) :=
  let* h := get_heap in
  expect (elements h a).

(** A new row-major array holding [vs]. *)
Definition array (shp : list nat) (t : dtype) (vs : list Z) : M ndarray :=
  let* b := alloc vs in
  ret (NDArray b 0 shp (c_strides shp) t).

Definition max_list (v : Z) (vs : list Z) : Z := foldl Z.max v vs.

(** [numpy.max(a)] / [a.max()]: a [ValueError] on an array without
    elements, which has no maximum. *)
Definition max (a : ndarray) : M Z :=
  let* vs := flat a in
  match vs with
  | [] => raise ValueError
  | v :: vs' => ret (max_list v vs')
  end.

(** Two's-complement wrap-around to a signed integer of [bits] bits. *)
Definition wrap (bits : Z) (v : Z) : Z :=
  ((v + 2 ^ (bits - 1)) mod 2 ^ bits - 2 ^ (bits - 1))%Z.

(** Bringing an integer into the range of an integer type, as C does;
    for [bool_], its truth value.  The floating-point types are not
    touched here: the hardware conversions to them are not part of this
    model, and the one place where the modelled code needs one (in the
    overlay) takes it as a parameter, see [setitem_with]. *)
Definition fit (t : dtype) (v : Z) : Z :=
  match t with
  | bool_ => if (v =? 0)%Z then 0 else 1
  | int8 => wrap 8 v
  | int16 => wrap 16 v
  | int32 => wrap 32 v
  | int64 => wrap 64 v
  | uint8 => v mod 2 ^ 8
  | uint16 => v mod 2 ^ 16
  | uint32 => v mod 2 ^ 32
  | float32 | float64 => v
  end%Z.

(** Conversion of a cell from type [src] to type [dst]. *)
Definition cast (src dst : dtype) (v : Z) : Z :=
  if decide (src = dst) then v else fit dst v.

(** [a.astype(t)]: always a new array. *)
Definition astype (a : ndarray) (t : dtype) : M ndarray :=
  let* vs := flat a in
  array (shape a) t (cast (arr_dtype a) t <$> vs).

(** [a >= c] for a scalar [c]: a new boolean array.  The cells are
    compared as they are stored.  For the integer types and [bool_] that
    is the comparison of the numbers; a floating-point cell holds a bit
    pattern, whose order is not that of the numbers (and a NaN compares
    false with everything), so what is stated about the outcome of this
    comparison is stated for arrays of an integer type. *)
Definition ge (a : ndarray) (c : Z) : M ndarray :=
  let* vs := flat a in
  array (shape a) bool_ ((fun v => if (c <=? v)%Z then 1%Z else 0%Z) <$> vs).

(** [numpy.all(a)]. *)
Definition all (a : ndarray) : M bool :=
  let* vs := flat a in
  ret (forallb (fun v => negb (v =? 0)%Z) vs).

(** Writing a list of (position, value) pairs into a buffer, in order. *)
Definition write_all (buf : list Z) (pvs : list (nat * Z)) : list Z :=
  foldl (fun b pv => <[pv.1 := pv.2]> b) buf pvs.

(** Storing one value per index of [dst] (in row-major order) through
    the view [dst]. *)
Definition store (dst : ndarray) (vs : list Z) : M unit :=
  let ps := flat_index dst <$> indices (shape dst) in
  let* h := get_heap in
  let* buf := expect (h !! base dst) in
  if forallb (fun p => p <? length buf) ps then
    put_heap (<[base dst := write_all buf (zip ps vs)]> h)
  else raise Fault.

(** Broadcasting of a source shape against the shape assigned to; both
    are given last axis first.  Axes line up from the last one; a source
    axis must have the length of its partner or length 1, and source
    axes without a partner must have length 1. *)
Fixpoint bcast_ok (rsrc rdst : list nat) : bool :=
  match rsrc, rdst with
  | [], _ => true
  | s :: rsrc', [] => (s =? 1) && bcast_ok rsrc' []
  | s :: rsrc', d :: rdst' => ((s =? d) || (s =? 1)) && bcast_ok rsrc' rdst'
  end.

(** The source index (last axis first) read for a destination index. *)
Fixpoint bcast_index (rsrc ridx : list nat) : list nat :=
  match rsrc, ridx with
  | [], _ => []
  | _ :: rsrc', [] => 0 :: bcast_index rsrc' []
  | s :: rsrc', i :: ridx' =>
      (if s =? 1 then 0 else i) :: bcast_index rsrc' ridx'
  end.

Definition src_index (src_shape idx : list nat) : list nat :=
  reverse (bcast_index (reverse src_shape) (reverse idx)).

(** [dst[...] = src], where [dst] is the view selected on the left-hand
    side and [conv] converts a cell of [src] to the type of [dst].  The
    source is read completely before anything is written. *)
Definition setitem_with (conv : Z -> Z) (dst src : ndarray) : M unit :=
  if bcast_ok (reverse (shape src)) (reverse (shape dst)) then
    let* h := get_heap in
    let* vs := expect (mapM (fun idx => peek h src (src_index (shape src) idx))
                         (indices (shape dst))) in
    store dst (conv <$> vs)
  else raise ValueError.

Definition setitem (dst src : ndarray) : M unit :=
  setitem_with (cast (arr_dtype src) (arr_dtype dst)) dst src.

(** [dst[...] = v] for an integer scalar [v]. *)
Definition fill (dst : ndarray) (v : Z) : M unit :=
  store dst (replicate (numel (shape dst)) (cast int64 (arr_dtype dst) v)).

(** [a[i, j, ...] = v] for one cell; [v] is a cell of the array's
    type. *)
Definition setitem_scalar (a : ndarray) (idx : list nat) (v : Z) : M unit :=
  if in_bounds (shape a) idx then
    let* h := get_heap in
    let* buf := expect (h !! base a) in
    if flat_index a idx <? length buf then
      put_heap (<[base a := <[flat_index a idx := v]> buf]> h)
    else raise Fault
  else raise IndexError.

(** [a[start:]] on the first axis. *)
Definition getslice_from (a : ndarray) (start : nat) : M ndarray :=
  match shape a, strides a with
  | s :: shp, st :: strd =>
      ret (NDArray (base a) (offset a + Nat.min start s * st)
             (s - start :: shp) (st :: strd) (arr_dtype a))
  | _, _ => raise IndexError
  end.

(** Iterating over an array visits the views [a[0]], [a[1]], ...; an
    array without axes cannot be iterated. *)
Definition iter (a : ndarray) : M (list ndarray) :=
  match shape a with
  | [] => raise TypeError
  | s :: _ => map_M (getrow a) (seq 0 s)
  end.

(** [numpy.arange(n)]. *)
Definition arange (n : Z) : M ndarray :=
  array [Z.to_nat n] int64 (Z.of_nat <$> seq 0 (Z.to_nat n)).

(** [numpy.unique(a)]: the distinct elements, ascending, in a new
    one-dimensional array. *)
Definition unique (a : ndarray) : M ndarray :=
  let* vs := flat a in
  let us := merge_sort Z.le (remove_dups vs) in
  array [length us] (arr_dtype a) us.

(** [a - c] for an integer scalar [c]: a new array of the type of [a]. *)
Definition sub (a : ndarray) (c : Z) : M ndarray :=
  let* vs := flat a in
  array (shape a) (arr_dtype a) ((fun v => fit (arr_dtype a) (v - c)) <$> vs).

(** One index of an index array, for an axis of length [n]: a negative
    index counts from the end. *)
Definition normal_index (n : nat) (i : Z) : M nat :=
  if (0 <=? i)%Z && (i <? Z.of_nat n)%Z then ret (Z.to_nat i)
  else if (- Z.of_nat n <=? i)%Z && (i <? 0)%Z then
    ret (Z.to_nat (i + Z.of_nat n))
  else raise IndexError.

(** [a[ix]] for an integer array [ix]: a new array of the entries of [a]
    along its first axis that [ix] selects. *)
Definition getitem_array (a ix : ndarray) : M ndarray :=
  match shape a with
  | [] => raise IndexError
  | n :: shp =>
      let* ks := flat ix in
      let* rows := map_M (fun i => let* k := normal_index n i in
                                   let* r := getrow a k in
                                   flat r) ks in
      array (shape ix ++ shp) (arr_dtype a) (concat rows)
  end.

End numpy.

(** [t[i]] on a tuple. *)
Definition tuple_get (t : list nat) (i : nat) : M nat :=
  match t !! i with
  | Some n => ret n
  | None => raise IndexError
  end.

(** [repr] of a tuple of integers: [()], [(3,)], [(2, 3)]. *)
Fixpoint repr_items (t : list nat) : string :=
  match t with
  | [] => ""
  | [n] => pretty n
  | n :: t' => pretty n +:+ ", " +:+ repr_items t'
  end.

Definition repr_shape (t : list nat) : string :=
  match t with
  | [n] => "(" +:+ pretty n +:+ ",)"
  | _ => "(" +:+ repr_items t +:+ ")"
  end.

(** ** The functions of [nucleus.object] *)

(** [downsample_labels]: convert a labels matrix to the smallest possible
    integer format. *)
Definition downsample_labels (labels : ndarray) : M ndarray :=
  let* labels_max := numpy.max labels in
  if (labels_max <? 128)%Z then numpy.astype labels int8
  else if (labels_max <? 32768)%Z then numpy.astype labels int16
  else numpy.astype labels int32.

(** ["{} label matrix must have two dimensions, has {:d}".format(what,
    n)], the message of the assertions on the number of dimensions. *)
Definition dimensions_message (what : string) (n : nat) : string :=
  what +:+ " label matrix must have two dimensions, has " +:+ pretty n.

(** ["Segmented {} and {} {} shapes differ".format(repr(shape), what,
    repr(other_shape))], the message of the assertions on the shapes. *)
Definition shapes_message (what : string) (shp other : list nat) : string :=
  "Segmented " +:+ repr_shape shp +:+ " and " +:+ what +:+ " "
  +:+ repr_shape other +:+ " shapes differ".

(** The test [m is None or numpy.all(m >= 0)]. *)
Definition is_None_or_nonneg (m : option ndarray) : M bool :=
  match m with
  | None => ret true
  | Some a => let* b := numpy.ge a 0 in numpy.all b
  end.

(** [assert m is None or m.ndim == 2, "<what> label matrix must have two
    dimensions, has {:d}".format(m.ndim)]. *)
Definition assert_two_dimensions (what : string) (m : option ndarray) : M unit :=
  match m with
  | None => ret tt
  | Some a =>
      assert (ndim a =? 2) (Some (dimensions_message what (ndim a)))
  end.

(** [assert segmented is None or other is None or segmented.shape ==
    other.shape, "Segmented {} and <what> {} shapes differ".format(...)]. *)
Definition assert_same_shape (what : string) (segmented other : option ndarray)
  : M unit :=
  match segmented, other with
  | Some s, Some o =>
      assert (bool_decide (shape s = shape o))
        (Some (shapes_message what (shape s) (shape o)))
  | _, _ => ret tt
  end.

(** [check_consistency]: check the three components of Objects to make
    sure they are consistent. *)
Definition check_consistency
    (segmented unedited_segmented small_removed_segmented : option ndarray)
  : M unit :=
  let* c := is_None_or_nonneg segmented in
  let* _ := assert c None in
  let* c := is_None_or_nonneg unedited_segmented in
  let* _ := assert c None in
  let* c := is_None_or_nonneg small_removed_segmented in
  let* _ := assert c None in
  let* _ := assert_two_dimensions "Segmented" segmented in
  let* _ := assert_two_dimensions "Unedited segmented" unedited_segmented in
  let* _ := assert_two_dimensions "Small removed segmented"
              small_removed_segmented in
  let* _ := assert_same_shape "unedited segmented" segmented
              unedited_segmented in
  assert_same_shape "small removed segmented" segmented
    small_removed_segmented.

(** [crop_labels_and_image]: crop a labels matrix and an image to the
    lowest common size. *)
Definition crop_labels_and_image (labels image : ndarray)
  : M (ndarray * ndarray) :=
  let* l0 := tuple_get (shape labels) 0 in
  let* i0 := tuple_get (shape image) 0 in
  let min_dim1 := Nat.min l0 i0 in
  let* l1 := tuple_get (shape labels) 1 in
  let* i1 := tuple_get (shape image) 1 in
  let min_dim2 := Nat.min l1 i1 in
  if ndim labels =? 3 then
    let* l2 := tuple_get (shape labels) 2 in
    let* i2 := tuple_get (shape image) 2 in
    let min_dim3 := Nat.min l2 i2 in
    if ndim image =? 4 then
      let* l := numpy.getslice labels
                  [Some min_dim1; Some min_dim2; Some min_dim3] in
      let* i := numpy.getslice image
                  [Some min_dim1; Some min_dim2; Some min_dim3; None] in
      ret (l, i)
    else
      let* l := numpy.getslice labels
                  [Some min_dim1; Some min_dim2; Some min_dim3] in
      let* i := numpy.getslice image
                  [Some min_dim1; Some min_dim2; Some min_dim3] in
      ret (l, i)
  else if ndim image =? 3 then
    let* l := numpy.getslice labels [Some min_dim1; Some min_dim2] in
    let* i := numpy.getslice image [Some min_dim1; Some min_dim2; None] in
    ret (l, i)
  else
    let* l := numpy.getslice labels [Some min_dim1; Some min_dim2] in
    let* i := numpy.getslice image [Some min_dim1; Some min_dim2] in
    ret (l, i).

(** The test [labels.shape[0] <= secondary.shape[0] and labels.shape[1] <=
    secondary.shape[1]]; [and] does not look at its second operand when
    the first is false. *)
Definition covers (labels secondary : ndarray) : M bool :=
  let* l0 := tuple_get (shape labels) 0 in
  let* s0 := tuple_get (shape secondary) 0 in
  if l0 <=? s0 then
    let* l1 := tuple_get (shape labels) 1 in
    let* s1 := tuple_get (shape secondary) 1 in
    ret (l1 <=? s1)
  else ret false.

(** [size_similarly]: size the secondary matrix similarly to the labels
    matrix; returns the resized secondary matrix and a mask of the part
    that is real. *)
Definition size_similarly (labels secondary : ndarray)
  : M (ndarray * ndarray) :=
  if bool_decide (take 2 (shape labels) = take 2 (shape secondary)) then
    let* mask := numpy.ones (shape secondary) bool_ in
    ret (secondary, mask)
  else
    let* c := covers labels secondary in
    if c then
      if ndim secondary =? 2 then
        let* l0 := tuple_get (shape labels) 0 in
        let* l1 := tuple_get (shape labels) 1 in
        let* cropped := numpy.getslice secondary [Some l0; Some l1] in
        let* mask := numpy.ones (shape labels) bool_ in
        ret (cropped, mask)
      else
        let* l0 := tuple_get (shape labels) 0 in
        let* l1 := tuple_get (shape labels) 1 in
        let* cropped := numpy.getslice secondary [Some l0; Some l1; None] in
        let* mask := numpy.ones (shape labels) bool_ in
        ret (cropped, mask)
    else
      (* Some portion of the secondary matrix does not cover the labels *)
      let* result := numpy.zeros (shape labels ++ drop 2 (shape secondary))
                       (arr_dtype secondary) in
      let* s0 := tuple_get (shape secondary) 0 in
      let* l0 := tuple_get (shape labels) 0 in
      let i_max := Nat.min s0 l0 in
      let* s1 := tuple_get (shape secondary) 1 in
      let* l1 := tuple_get (shape labels) 1 in
      let j_max := Nat.min s1 l1 in
      let* _ :=
        if ndim secondary =? 2 then
          let* src := numpy.getslice secondary [Some i_max; Some j_max] in
          let* dst := numpy.getslice result [Some i_max; Some j_max] in
          numpy.setitem dst src
        else
          let* src := numpy.getslice secondary
                        [Some i_max; Some j_max; None] in
          let* dst := numpy.getslice result [Some i_max; Some j_max; None] in
          numpy.setitem dst src in
      let* mask := numpy.zeros (shape labels) bool_ in
      let* region := numpy.getslice mask [Some i_max; Some j_max] in
      let* _ := numpy.fill region 1 in
      ret (result, mask).

(** ** The overlay *)

Section Rendering.

(** The collaborators of the overlay, which are not part of this module:
    Matplotlib's colormaps, scikit-image's [label2rgb], the generator
    behind [numpy.random], and the conversion between floating-point
    types.  The array functions work on the store; they see neither the
    random number generator nor the preferences. *)

(** Whether [matplotlib.cm.get_cmap] knows a colormap of this name. *)
Variable known_cmap : string -> bool.

(** [ScalarMappable(cmap=...).to_rgba(x)]. *)
Variable to_rgba :
  string -> ndarray -> list (list Z) -> outcome ndarray * list (list Z).

(** [skimage.color.label2rgb(label, alpha=opacity, bg_color=[0, 0, 0],
    bg_label=0, colors=colors, image=image)]; the opacity is given by
    its bit pattern. *)
Variable label2rgb :
  ndarray -> Z -> ndarray -> ndarray ->
  list (list Z) -> outcome ndarray * list (list Z).

(** The state in which [numpy.random.seed(seed)] leaves the generator. *)
Variable seed_state : Z -> Z.

(** The order in which [numpy.random.shuffle] arranges [n] items when
    the generator is in the given state, and the state it leaves. *)
Variable shuffle_order : Z -> nat -> list nat * Z.

(** Conversion of a cell between two floating-point types. *)
Variable float_conv : dtype -> dtype -> Z -> Z.

(** A call of a collaborator that works on the store. *)
Definition call {A} (f : list (list Z) -> outcome A * list (list Z)) : M A :=
  let* h := get_heap in
  let* _ := put_heap (f h).2 in
  match (f h).1 with
  | Ok a => ret a
  | Raise e => raise e
  end.

(** [nucleus.preferences.get_default_colormap()]. *)
Definition get_default_colormap : M string :=
  fun w => (Ok (default_colormap w), w).

(** [matplotlib.cm.get_cmap(name)]; the colormap is represented by its
    name. *)
Definition get_cmap (name : string) : M string :=
  if known_cmap name then ret name else raise ValueError.

(** [numpy.random.seed(seed)]. *)
Definition random_seed (seed : Z) : M unit :=
  if (0 <=? seed)%Z && (seed <? 2 ^ 32)%Z then put_rng (seed_state seed)
  else raise ValueError.

(** [numpy.random.shuffle(a)]: rearranges the entries of [a] along its
    first axis in place. *)
Definition random_shuffle (a : ndarray) : M unit :=
  match shape a with
  | [] => raise TypeError
  | n :: _ =>
      let* s := get_rng in
      let* _ := put_rng (shuffle_order s n).2 in
      let* rows := map_M (fun i => let* r := numpy.getrow a i in
                                   numpy.flat r) (seq 0 n) in
      for_each (zip (seq 0 n) (shuffle_order s n).1)
        (fun ij => let* r := numpy.getrow a ij.1 in
                   match rows !! ij.2 with
                   | Some vs => numpy.store r vs
                   | None => ret tt
                   end)
  end.

Definition _colors (labels : ndarray) (max_label seed : option Z)
  : M ndarray :=
  let* name := get_default_colormap in
  let* cmap := get_cmap name in
  let* n := match max_label with
            | None => numpy.max labels
            | Some m => ret m
            end in
  let* xs := numpy.arange n in
  let* rgba := call (to_rgba cmap xs) in
  let* colors := numpy.getslice rgba [None; Some 3] in
  let* _ := match seed with
            | Some s =>
                (* Resetting the random seed helps keep object label
                   colors consistent in displays where consistency is
                   important, like RelateObjects. *)
                random_seed s
            | None => ret tt
            end in
  let* _ := random_shuffle colors in
  ret colors.

Fixpoint enumerate {A} (i : nat) (xs : list A) : list (nat * A) :=
  match xs with
  | [] => []
  | x :: xs' => (i, x) :: enumerate (S i) xs'
  end.

Definition overlay_labels (pixel_data labels : ndarray) (opacity : Z)
    (max_label seed : option Z) : M ndarray :=
  let* colors := _colors labels max_label seed in
  if ndim labels =? 3 then
    let* overlay := numpy.zeros (shape labels ++ [3]) float32 in
    let* planes := numpy.iter pixel_data in
    let* _ :=
      for_each (enumerate 0 planes) (fun ip =>
        let index := ip.1 in
        let plane := ip.2 in
        let* labels_index := numpy.getrow labels index in
        let* unique_labels := numpy.unique labels_index in
        let* first := numpy.getitem unique_labels [0] in
        let* unique_labels :=
          if (first =? 0)%Z then numpy.getslice_from unique_labels 1
          else ret unique_labels in
        let* labels_index := numpy.getrow labels index in
        let* ix := numpy.sub unique_labels 1 in
        let* plane_colors := numpy.getitem_array colors ix in
        let* rgb := call (label2rgb labels_index opacity plane_colors plane) in
        let* dst := numpy.getrow overlay index in
        numpy.setitem_with (float_conv (arr_dtype rgb) float32) dst rgb) in
    ret overlay
  else call (label2rgb labels opacity colors pixel_data).

End Rendering.

(** ** Notions used in the statements *)

(** A label matrix: an integer array that is valid in the world. *)
Definition label_matrix (w : world) (a : ndarray) : bool :=
  valid w a && is_integer (arr_dtype a).

(** [m] is the largest of the values [vs]. *)
Definition is_maximum (m : Z) (vs : list Z) : Prop :=
  m ∈ vs /\ forall v, v ∈ vs -> (v <= m)%Z.

(** The values a signed integer type of the given number of bits holds. *)
Definition fits_signed (bits : Z) (v : Z) : Prop :=
  (- 2 ^ (bits - 1) <= v < 2 ^ (bits - 1))%Z.

(** The number of bits of the integer types [downsample_labels] selects. *)
Definition bits_of (t : dtype) : Z :=
  match t with
  | int8 | uint8 | bool_ => 8
  | int16 | uint16 => 16
  | int32 | uint32 | float32 => 32
  | int64 | float64 => 64
  end.

(** Decimal digits, and the strings made of them. *)
Definition is_digit (c : ascii) : bool :=
  (48 <=? nat_of_ascii c) && (nat_of_ascii c <=? 57).

Fixpoint all_digits (s : string) : bool :=
  match s with
  | EmptyString => true
  | String c s' => is_digit c && all_digits s'
  end.

(** The names [check_consistency] uses for the matrices in its messages on
    the dimensions, and for the partners of [segmented] in its messages on
    the shapes. *)
Definition matrix_names : list string :=
  ["Segmented"; "Unedited segmented"; "Small removed segmented"].

Definition partner_names : list string :=
  ["unedited segmented"; "small removed segmented"].

(** An argument that may be [None]: if it is there, it is a valid array. *)
Definition present_valid (w : world) (m : option ndarray) : bool :=
  match m with
  | Some a => valid w a
  | None => true
  end.

(** The arguments of [check_consistency] are label matrices: a matrix
    that is present is a valid array of an integer type. *)
Definition present_labels (w : world) (m : option ndarray) : bool :=
  match m with
  | Some a => label_matrix w a
  | None => true
  end.

(** The violations [check_consistency] is about: a present matrix with a
    negative element, a present matrix that does not have exactly two
    dimensions, two present matrices of different shapes. *)
Definition has_negative (w : world) (m : option ndarray) : Prop :=
  exists a idx v,
    m = Some a /\ in_bounds (shape a) idx = true /\
    peek (heap w) a idx = Some v /\ (v < 0)%Z.

Definition not_two_dimensional (m : option ndarray) : Prop :=
  exists a, m = Some a /\ ndim a <> 2.

Definition shapes_differ (m1 m2 : option ndarray) : Prop :=
  exists a b, m1 = Some a /\ m2 = Some b /\ shape a <> shape b.

(** The value of the test [m is None or numpy.all(m >= 0)]. *)
Definition nonneg_of (w : world) (m : option ndarray) : bool :=
  match m with
  | None => true
  | Some a =>
      match elements (heap w) a with
      | Some vs => forallb (fun v => (0 <=? v)%Z) vs
      | None => true
      end
  end.

(** The assertions of [check_consistency] that come after the three on
    the sign of the elements; they do not touch the world. *)
Definition dimension_and_shape_checks
    (segmented unedited_segmented small_removed_segmented : option ndarray)
  : M unit :=
  let* _ := assert_two_dimensions "Segmented" segmented in
  let* _ := assert_two_dimensions "Unedited segmented" unedited_segmented in
  let* _ := assert_two_dimensions "Small removed segmented"
              small_removed_segmented in
  let* _ := assert_same_shape "unedited segmented" segmented
              unedited_segmented in
  assert_same_shape "small removed segmented" segmented
    small_removed_segmented.

(** The shapes [crop_labels_and_image] is made for: a labels matrix with
    two or three axes, and an image with the same axes and possibly one
    more, the channels. *)
Definition croppable (labels image : ndarray) : Prop :=
  (ndim labels = 2 /\ (ndim image = 2 \/ ndim image = 3)) \/
  (ndim labels = 3 /\ (ndim image = 3 \/ ndim image = 4)).

(** A world with two matrices of different shapes, 1 x 1 and 1 x 2, both
    without negative elements, and one 1 x 1 matrix with a negative
    element. *)
Definition three_matrices : world :=
  World [[0%Z]; [0%Z; 0%Z]; [(-1)%Z]] 0 "gray".

Definition matrix_1x1 : ndarray := NDArray 0 0 [1; 1] [1; 1] int32.

Definition matrix_1x2 : ndarray := NDArray 1 0 [1; 2] [2; 1] int32.

Definition matrix_negative : ndarray := NDArray 2 0 [1; 1] [1; 1] int32.

(** A world with a 2 x 2 labels matrix and a 2 x 2 image of three
    channels. *)
Definition labels_and_rgb : world :=
  World [[0; 1; 1; 2]%Z; [10; 11; 12; 20; 21; 22; 30; 31; 32; 40; 41; 42]%Z]
    0 "gray".

Definition labels_2x2 : ndarray := NDArray 0 0 [2; 2] [2; 1] int32.

Definition rgb_2x2 : ndarray := NDArray 1 0 [2; 2; 3] [6; 3; 1] uint8.

(** ** Notions used for the overlay *)

(** A computation keeps the buffers [h0]: started in a world that has
    them, it ends in one that has them, unchanged, and a value it returns
    satisfies [Q]. *)
Definition keeps {A} (h0 : list (list Z)) (m : M A) (Q : A -> Prop) : Prop :=
  forall w, h0 `prefix_of` heap w ->
    h0 `prefix_of` heap (m w).2 /\
    forall a, (m w).1 = Ok a -> Q a.

(** An array that was allocated after the buffers [h0]. *)
Definition newer (h0 : list (list Z)) (a : ndarray) : Prop :=
  length h0 <= base a.

(** Two worlds agree when they differ at most in the state of the random
    number generator. *)
Definition agree (w1 w2 : world) : Prop :=
  heap w1 = heap w2 /\ default_colormap w1 = default_colormap w2.

(** A computation is oblivious of the random number generator: from
    worlds that agree it comes to the same outcome and to worlds that
    agree. *)
Definition oblivious {A} (m : M A) : Prop :=
  forall w1 w2, agree w1 w2 ->
    (m w1).1 = (m w2).1 /\ agree (m w1).2 (m w2).2.

(** Stand-ins for the collaborators of the overlay, to run it on examples:
    every colormap is known; [ramp] gives the value [v] the color
    [(v, 2 v, 3 v + 1)] and opacity 255; [paint] gives every pixel the
    color of its label (black for the background) and ignores the image;
    seeding with [s] leaves the generator in state [s]; in state [s] the
    order of [n] items is the rotation by [s], and the state moves on to
    [s + 1]; the conversion between floating-point types is the identity
    on these small integers. *)
Definition any_cmap (name : string) : bool := true.

Definition ramp (cmap : string) (x : ndarray) (h : list (list Z))
  : outcome ndarray * list (list Z) :=
  match elements h x with
  | Some vs =>
      (Ok (NDArray (length h) 0 (shape x ++ [4]) (c_strides (shape x ++ [4]))
             float64),
       h ++ [concat ((fun v => [v; 2 * v; 3 * v + 1; 255]%Z) <$> vs)])
  | None => (Raise Fault, h)
  end.

Definition paint (label : ndarray) (opacity : Z) (colors image : ndarray)
    (h : list (list Z)) : outcome ndarray * list (list Z) :=
  match elements h label, elements h colors with
  | Some ls, Some cs =>
      let n := length cs / 3 in
      if n =? 0 then (Raise ValueError, h)
      else
        let pixel v :=
          if (v =? 0)%Z then [0; 0; 0]%Z
          else take 3 (drop (3 * (Z.to_nat (v - 1) mod n)) cs) in
        (Ok (NDArray (length h) 0 (shape label ++ [3])
               (c_strides (shape label ++ [3])) float64),
         h ++ [concat (pixel <$> ls)])
  | _, _ => (Raise Fault, h)
  end.

Definition seed_is_state (s : Z) : Z := s.

Definition rotation (s : Z) (n : nat) : list nat * Z :=
  ((fun i => (i + Z.to_nat s) mod n) <$> seq 0 n, (s + 1)%Z).

Definition same_bits (src dst : dtype) (v : Z) : Z := v.

(** A world with a 2 x 2 labels matrix with the objects 1, 2 and 3, and a
    2 x 2 image; and the same world with the generator in another
    state. *)
Definition scene : world :=
  World [[0; 1; 2; 3]%Z; [7; 7; 7; 7]%Z] 0 "gray".

Definition scene_later : world :=
  World [[0; 1; 2; 3]%Z; [7; 7; 7; 7]%Z] 1 "gray".

Definition scene_labels : ndarray := NDArray 0 0 [2; 2] [2; 1] int32.

Definition scene_pixels : ndarray := NDArray 1 0 [2; 2] [2; 1] float64.

(** The elements of the array a computation returns, in the world it
    leaves. *)
Definition returned_elements (r : outcome ndarray * world)
  : option (list Z) :=
  match r.1 with
  | Ok a => elements (heap r.2) a
  | Raise _ => None
  end.

(** Two calls of the overlay on the scene, one after the other, with the
    stand-ins: the elements of the two arrays they return. *)
Definition twice (seed : option Z) : option (list Z) * option (list Z) :=
  let run :=
    overlay_labels any_cmap ramp paint seed_is_state rotation same_bits
      scene_pixels scene_labels 0 None seed in
  (returned_elements (run scene), returned_elements (run (run scene).2)).

(** A world with a single 1 x 1 labels matrix, whose element is [v]. *)
Definition single (v : Z) : world := World [[v]] 0 "gray".

Definition cell : ndarray := NDArray 0 0 [1; 1] [1; 1] int32.

(** ** Notions used for the generator *)

(** A computation is quiet when it leaves the random number generator in
    the state it found it in. *)
Definition quiet {A} (m : M A) : Prop :=
  forall w, rng (m w).2 = rng w.

(** A computation refuses when it never returns a value. *)
Definition refuses {A} (m : M A) : Prop :=
  forall w a, (m w).1 <> Ok a.

(** A world with a labels matrix without elements (0 x 0) and an image
    without elements. *)
Definition nothing : world := World [[]; []] 0 "gray".

Definition labels_0x0 : ndarray := NDArray 0 0 [0; 0] [0; 1] int32.

Definition pixels_0x0 : ndarray := NDArray 1 0 [0; 0] [0; 1] float64.

(** A world with a volume of labels of one plane (1 x 2 x 2) with the
    objects 1, 2 and 3, an image of one plane and an image of two
    planes. *)
Definition volume : world :=
  World [[0; 1; 2; 3]%Z; [7; 7; 7; 7]%Z; [7; 7; 7; 7; 8; 8; 8; 8]%Z] 0 "gray".

Definition volume_labels : ndarray := NDArray 0 0 [1; 2; 2] [4; 2; 1] int32.

Definition volume_pixels : ndarray := NDArray 1 0 [1; 2; 2] [4; 2; 1] float64.

Definition volume_pixels_2 : ndarray :=
  NDArray 2 0 [2; 2; 2] [4; 2; 1] float64.

(** A vector of one element, in the first buffer of [three_matrices]. *)
Definition vector_1 : ndarray := NDArray 0 0 [1] [1] int32.

(** A world with a 3 x 2 x 3 volume of labels and a 2 x 2 matrix. *)
Definition slab : world :=
  World [replicate 18 0%Z; [1; 2; 3; 4]%Z] 0 "gray".

Definition slab_labels : ndarray := NDArray 0 0 [3; 2; 3] [6; 3; 1] int32.

Definition slab_secondary : ndarray := NDArray 1 0 [2; 2] [2; 1] int32.

(** * Properties *)

(** ** Index arithmetic *)

Lemma indices_length shp : length (indices shp) = numel shp.
Proof.
  induction shp as [|s rest IH]; simpl; [done|].
  rewrite <- IH. generalize (indices rest) as l. intros l.
  generalize 0 as k.
  induction s as [|s IHs]; intros k; simpl; [done|].
  rewrite length_app, length_fmap, IHs. done.
Qed.

Lemma elem_of_indices shp idx :
  idx ∈ indices shp <-> in_bounds shp idx = true.
Proof.
  revert idx. induction shp as [|s rest IH]; intros idx; simpl.
  - rewrite list_elem_of_singleton. destruct idx; split; congruence.
  - rewrite list_elem_of_bind. split.
    + intros (i & Hidx & Hi). apply list_elem_of_fmap in Hidx as (idx' & -> & Hidx').
      apply elem_of_seq in Hi. apply IH in Hidx'.
      apply andb_true_iff. split; [apply Nat.ltb_lt; lia|done].
    + destruct idx as [|i idx']; [done|].
      intros [Hi Hidx']%andb_true_iff. apply Nat.ltb_lt in Hi.
      exists i. split.
      * apply list_elem_of_fmap. exists idx'. split; [done|]. by apply IH.
      * apply elem_of_seq. lia.
Qed.

Lemma seq_blocks s n k :
  (seq k s ≫= fun i => seq (i * n) n) = seq (k * n) (s * n).
Proof.
  revert k. induction s as [|s IH]; intros k; simpl; [done|].
  rewrite IH, seq_app. do 2 f_equal. lia.
Qed.

(** The indices of a row-major array are stored one after the other. *)
Lemma c_positions shp :
  (fun idx => dot idx (c_strides shp)) <$> indices shp = seq 0 (numel shp).
Proof.
  induction shp as [|s rest IH]; [done|].
  change (numel (s :: rest)) with (s * numel rest).
  change (seq 0 (s * numel rest)) with (seq (0 * numel rest) (s * numel rest)).
  rewrite <- seq_blocks.
  change (indices (s :: rest)) with (seq 0 s ≫= fun i => cons i <$> indices rest).
  generalize 0 as k. intros k.
  induction (seq k s) as [|i l IHl]; [done|].
  change ((i :: l) ≫= ?f) with (f i ++ (l ≫= f)).
  rewrite fmap_app, IHl. f_equal.
  rewrite <- list_fmap_compose.
  assert (seq (i * numel rest) (numel rest)
          = Nat.add (i * numel rest) <$> seq 0 (numel rest)) as ->
    by (rewrite fmap_add_seq; f_equal; lia).
  rewrite <- IH, <- list_fmap_compose.
  apply list_fmap_ext. intros _ idx _. done.
Qed.

Lemma indices_lookup shp idx :
  in_bounds shp idx = true ->
  indices shp !! dot idx (c_strides shp) = Some idx.
Proof.
  intros Hin. apply elem_of_indices, list_elem_of_lookup in Hin as [k Hk].
  assert (Hp : ((fun idx => dot idx (c_strides shp)) <$> indices shp) !! k
               = Some (dot idx (c_strides shp))).
  { rewrite list_lookup_fmap, Hk. done. }
  rewrite c_positions in Hp. apply lookup_seq in Hp as [? ?].
  simpl in *. by subst.
Qed.

Lemma dot_c_strides_lt shp idx :
  in_bounds shp idx = true -> dot idx (c_strides shp) < numel shp.
Proof.
  intros Hin. apply indices_lookup, lookup_lt_Some in Hin.
  by rewrite indices_length in Hin.
Qed.

(** ** Running computations *)

Lemma bind_ok {A B} (m : M A) (k : A -> M B) w a w' :
  m w = (Ok a, w') -> bind m k w = k a w'.
Proof. unfold bind. by intros ->. Qed.

Lemma bind_raise {A B} (m : M A) (k : A -> M B) w e w' :
  m w = (Raise e, w') -> bind m k w = (Raise e, w').
Proof. unfold bind. by intros ->. Qed.

Lemma bind_ret_l {A B} (a : A) (k : A -> M B) w : bind (ret a) k w = k a w.
Proof. done. Qed.

Lemma bind_raise_l {A B} e (k : A -> M B) w :
  bind (raise e) k w = (Raise e, w).
Proof. done. Qed.

Lemma valid_inv w a :
  valid w a = true ->
  length (strides a) = length (shape a) /\
  exists buf, heap w !! base a = Some buf /\
    forall idx, in_bounds (shape a) idx = true -> flat_index a idx < length buf.
Proof.
  unfold valid. intros [Hlen H]%andb_true_iff.
  apply Nat.eqb_eq in Hlen. split; [done|].
  destruct (heap w !! base a) as [buf|]; [|done].
  exists buf. split; [done|]. intros idx Hidx.
  rewrite forallb_forall in H. apply Nat.ltb_lt, H.
  by apply list_elem_of_In, elem_of_indices.
Qed.

Lemma valid_peek w a idx :
  valid w a = true -> in_bounds (shape a) idx = true ->
  is_Some (peek (heap w) a idx).
Proof.
  intros (_ & buf & Hbuf & Hlt)%valid_inv Hidx. unfold peek.
  rewrite Hbuf. simpl. apply lookup_lt_is_Some. auto.
Qed.

Lemma valid_elements w a :
  valid w a = true -> exists vs, elements (heap w) a = Some vs.
Proof.
  intros Hv. apply mapM_is_Some, Forall_forall. intros idx Hidx.
  apply valid_peek; [done|]. by apply elem_of_indices.
Qed.

Lemma elements_length h a vs :
  elements h a = Some vs -> length vs = numel (shape a).
Proof. intros H%length_mapM. by rewrite <- H, indices_length. Qed.

(** The cell behind an index is the element at the index's row-major
    position. *)
Lemma elements_peek h a vs idx :
  elements h a = Some vs -> in_bounds (shape a) idx = true ->
  peek h a idx = vs !! dot idx (c_strides (shape a)).
Proof.
  intros Hvs Hidx. apply mapM_Some in Hvs.
  pose proof (indices_lookup _ _ Hidx) as Hk.
  destruct (Forall2_lookup_l _ _ _ _ _ Hvs Hk) as (v & Hv & Hp).
  by rewrite Hv, Hp.
Qed.

(** The elements of a new row-major array are the cells it was built
    from. *)
Lemma elements_fresh h shp t vs :
  length vs = numel shp ->
  elements (h ++ [vs]) (NDArray (length h) 0 shp (c_strides shp) t) = Some vs.
Proof.
  intros Hlen. unfold elements, peek, flat_index. simpl.
  rewrite (mapM_ext _ (fun idx => vs !! dot idx (c_strides shp))).
  2:{ intros idx. by rewrite lookup_app_r, Nat.sub_diag by lia. }
  apply mapM_Some.
  apply Forall2_lookup. intros i.
  destruct (decide (i < numel shp)) as [Hi|Hi].
  - destruct (lookup_lt_is_Some_2 (indices shp) i) as [idx Hidx];
      [by rewrite indices_length|].
    destruct (lookup_lt_is_Some_2 vs i) as [v Hv]; [lia|].
    rewrite Hidx, Hv. constructor.
    assert (in_bounds shp idx = true) as Hin
      by (apply elem_of_indices, list_elem_of_lookup; eauto).
    pose proof (indices_lookup _ _ Hin) as Hk.
    assert (NoDup (indices shp)) as Hnd.
    { apply (NoDup_fmap_1 (fun idx => dot idx (c_strides shp))).
      rewrite c_positions. apply NoDup_seq. }
    rewrite (NoDup_lookup _ _ _ _ Hnd Hk Hidx). done.
  - rewrite (lookup_ge_None_2 (indices shp)), (lookup_ge_None_2 vs)
      by (rewrite ?indices_length; lia).
    constructor.
Qed.

Lemma peek_fresh h shp t vs idx :
  in_bounds shp idx = true ->
  peek (h ++ [vs]) (NDArray (length h) 0 shp (c_strides shp) t) idx
  = vs !! dot idx (c_strides shp).
Proof.
  intros _. unfold peek, flat_index. simpl.
  by rewrite lookup_app_r, Nat.sub_diag by lia.
Qed.

(** Cells of arrays that were there before an allocation do not move. *)
Lemma peek_alloc h a buf idx :
  base a < length h -> peek (h ++ [buf]) a idx = peek h a idx.
Proof. intros Hb. unfold peek. by rewrite lookup_app_l. Qed.

Lemma valid_base w a : valid w a = true -> base a < length (heap w).
Proof.
  intros (_ & buf & Hbuf & _)%valid_inv. by apply lookup_lt_Some in Hbuf.
Qed.

Lemma run_flat w a vs :
  elements (heap w) a = Some vs -> numpy.flat a w = (Ok vs, w).
Proof. unfold numpy.flat, bind, get_heap. by intros ->. Qed.

Lemma run_array w shp t vs :
  numpy.array shp t vs w
  = (Ok (NDArray (length (heap w)) 0 shp (c_strides shp) t),
     set_heap (heap w ++ [vs]) w).
Proof. done. Qed.

Lemma run_astype w a t vs :
  elements (heap w) a = Some vs ->
  numpy.astype a t w
  = (Ok (NDArray (length (heap w)) 0 (shape a) (c_strides (shape a)) t),
     set_heap (heap w ++ [numpy.cast (arr_dtype a) t <$> vs]) w).
Proof.
  intros Hvs. unfold numpy.astype.
  by rewrite (bind_ok _ _ _ _ _ (run_flat _ _ _ Hvs)), run_array.
Qed.

(** ** The maximum *)

Lemma max_list_ge v vs :
  (v <= numpy.max_list v vs)%Z /\
  forall x, x ∈ vs -> (x <= numpy.max_list v vs)%Z.
Proof.
  unfold numpy.max_list. revert v.
  induction vs as [|y vs IH]; intros v; simpl.
  - split; [lia|]. intros x Hx. by apply elem_of_nil in Hx.
  - destruct (IH (Z.max v y)) as [H1 H2]. split; [lia|].
    intros x [->|Hx]%elem_of_cons; [lia|auto].
Qed.

Lemma max_list_elem v vs : numpy.max_list v vs ∈ v :: vs.
Proof.
  unfold numpy.max_list. revert v.
  induction vs as [|y vs IH]; intros v; simpl; [by left|].
  specialize (IH (Z.max v y)).
  apply elem_of_cons in IH as [->|IH].
  - destruct (Z.max_spec v y) as [[_ ->]|[_ ->]]; [right; left|left].
  - by do 2 right.
Qed.

Lemma max_list_maximum v vs m :
  is_maximum m (v :: vs) -> numpy.max_list v vs = m.
Proof.
  intros [Hm Hle].
  pose proof (max_list_elem v vs) as He. pose proof (max_list_ge v vs) as [H1 H2].
  apply Hle in He.
  apply elem_of_cons in Hm as [->|Hm]; [lia|]. apply H2 in Hm. lia.
Qed.

Lemma run_max w a v vs :
  elements (heap w) a = Some (v :: vs) ->
  numpy.max a w = (Ok (numpy.max_list v vs), w).
Proof.
  intros Hvs. unfold numpy.max.
  by rewrite (bind_ok _ _ _ _ _ (run_flat _ _ _ Hvs)).
Qed.

Lemma run_max_empty w a :
  elements (heap w) a = Some [] -> numpy.max a w = (Raise ValueError, w).
Proof.
  intros Hvs. unfold numpy.max.
  by rewrite (bind_ok _ _ _ _ _ (run_flat _ _ _ Hvs)).
Qed.

(** ** [downsample_labels] *)

Lemma label_matrix_valid w a : label_matrix w a = true -> valid w a = true.
Proof. unfold label_matrix. by intros [? _]%andb_true_iff. Qed.

Lemma is_maximum_cons m vs : is_maximum m vs -> exists v vs', vs = v :: vs'.
Proof.
  intros [Hm _]. destruct vs as [|v vs']; [|by eauto].
  by apply elem_of_nil in Hm.
Qed.

(** The branch taken for a matrix with maximum [m]. *)
Lemma run_downsample_labels w labels vs m :
  elements (heap w) labels = Some vs ->
  is_maximum m vs ->
  downsample_labels labels w
  = numpy.astype labels
      (if (m <? 128)%Z then int8
       else if (m <? 32768)%Z then int16 else int32) w.
Proof.
  intros Hvs Hm. destruct (is_maximum_cons _ _ Hm) as (v & vs' & ->).
  unfold downsample_labels.
  rewrite (bind_ok _ _ _ _ _ (run_max _ _ _ _ Hvs)).
  rewrite (max_list_maximum _ _ _ Hm).
  by repeat case_match.
Qed.

Lemma fit_small t v :
  t = int8 \/ t = int16 \/ t = int32 ->
  fits_signed (bits_of t) v -> numpy.fit t v = v.
Proof.
  unfold fits_signed.
  intros [-> | [-> | ->]]; simpl; unfold numpy.wrap; intros Hv;
    rewrite Z.mod_small; lia.
Qed.

Lemma cast_small s t v :
  t = int8 \/ t = int16 \/ t = int32 ->
  fits_signed (bits_of t) v -> numpy.cast s t v = v.
Proof.
  intros Ht Hv. unfold numpy.cast. case_decide; [done|]. by apply fit_small.
Qed.

(** C1: for a label matrix whose maximum identifier is [m],
    [downsample_labels] returns the matrix cast to a new array of the
    narrowest of the three signed widths: 8 bits when [m < 128], 16 bits
    when [128 <= m < 32768], and 32 bits otherwise.  The result has the
    shape of the input and holds the input's elements converted to that
    type. *)
Theorem downsample_labels_width w labels vs m :
  label_matrix w labels = true ->
  elements (heap w) labels = Some vs ->
  is_maximum m vs ->
  exists r w',
    downsample_labels labels w = (Ok r, w') /\
    arr_dtype r = (if (m <? 128)%Z then int8
                   else if (m <? 32768)%Z then int16 else int32) /\
    shape r = shape labels /\
    elements (heap w') r
    = Some (numpy.cast (arr_dtype labels) (arr_dtype r) <$> vs).
Proof.
  intros _ Hvs Hm.
  rewrite (run_downsample_labels _ _ _ _ Hvs Hm).
  rewrite (run_astype _ _ _ _ Hvs).
  eexists _, _. split; [done|]. simpl. repeat split.
  apply elements_fresh. rewrite length_fmap. by eapply elements_length.
Qed.

(** C7: for a label matrix with non-negative entries, when the maximum
    identifier fits the width that [downsample_labels] selects, the output
    has the shape of the input and is elementwise equal to it: identifiers
    are not renumbered. *)
Theorem downsample_labels_preserves w labels vs m :
  label_matrix w labels = true ->
  elements (heap w) labels = Some vs ->
  is_maximum m vs ->
  (forall v, v ∈ vs -> (0 <= v)%Z) ->
  exists r w',
    downsample_labels labels w = (Ok r, w') /\
    (fits_signed (bits_of (arr_dtype r)) m ->
     shape r = shape labels /\
     forall idx, in_bounds (shape labels) idx = true ->
       peek (heap w') r idx = peek (heap w) labels idx).
Proof.
  intros _ Hvs Hm Hpos.
  rewrite (run_downsample_labels _ _ _ _ Hvs Hm).
  rewrite (run_astype _ _ _ _ Hvs).
  eexists _, _. split; [done|]. simpl. intros Hfit. split; [done|].
  intros idx Hidx. rewrite peek_fresh by done.
  rewrite (elements_peek _ _ _ _ Hvs Hidx), list_lookup_fmap.
  destruct (vs !! _) as [v|] eqn:Hv; [|done]. simpl. f_equal.
  apply list_elem_of_lookup_2 in Hv.
  pose proof (Hpos _ Hv). destruct Hm as [_ Hle]. pose proof (Hle _ Hv).
  apply cast_small; [repeat case_match; auto|].
  unfold fits_signed in *. split; [|lia].
  assert (0 < 2 ^ (bits_of (if (m <? 128)%Z then int8
                             else if (m <? 32768)%Z then int16 else int32) - 1))%Z
    by (repeat case_match; simpl; lia).
  lia.
Qed.

(** C9: [downsample_labels] is partial: on a label matrix without elements
    it raises (the maximum of no values does not exist), and on every
    label matrix with at least one element it returns an array. *)
Theorem downsample_labels_partial w labels :
  label_matrix w labels = true ->
  (numel (shape labels) = 0 ->
   downsample_labels labels w = (Raise ValueError, w)) /\
  (numel (shape labels) <> 0 ->
   exists r w', downsample_labels labels w = (Ok r, w')).
Proof.
  intros Hl. apply label_matrix_valid, valid_elements in Hl as [vs Hvs].
  pose proof (elements_length _ _ _ Hvs) as Hlen.
  split; intros Hn.
  - destruct vs; [|simpl in *; lia].
    unfold downsample_labels. by rewrite (bind_raise _ _ _ _ _ (run_max_empty _ _ Hvs)).
  - destruct vs as [|v vs]; [simpl in *; lia|].
    unfold downsample_labels.
    rewrite (bind_ok _ _ _ _ _ (run_max _ _ _ _ Hvs)).
    repeat case_match; rewrite (run_astype _ _ _ _ Hvs); eauto.
Qed.

(** ** [check_consistency] *)

(** One world continues another: the buffers that were there are still
    there, unchanged, and nothing else has changed. *)
Lemma peek_prefix h h' a idx :
  h `prefix_of` h' -> base a < length h -> peek h' a idx = peek h a idx.
Proof. intros [k ->] Hb. unfold peek. by rewrite lookup_app_l. Qed.

Lemma elements_prefix h h' a :
  h `prefix_of` h' -> base a < length h -> elements h' a = elements h a.
Proof.
  intros Hp Hb. unfold elements. apply mapM_ext. intros idx.
  by apply peek_prefix.
Qed.

Lemma present_valid_elements w w' m :
  present_valid w m = true -> heap w `prefix_of` heap w' ->
  nonneg_of w' m = nonneg_of w m.
Proof.
  destruct m as [a|]; [|done]. simpl. intros Hv Hp.
  by rewrite (elements_prefix _ _ _ Hp (valid_base _ _ Hv)).
Qed.

Lemma forallb_ge_flags vs :
  forallb (fun v => negb (v =? 0)%Z)
    ((fun v => if (0 <=? v)%Z then 1%Z else 0%Z) <$> vs)
  = forallb (fun v => (0 <=? v)%Z) vs.
Proof.
  induction vs as [|v vs IH]; [done|].
  rewrite fmap_cons. cbn [forallb]. rewrite IH.
  by destruct (0 <=? v)%Z.
Qed.

Lemma run_ge w a c vs :
  elements (heap w) a = Some vs ->
  numpy.ge a c w
  = (Ok (NDArray (length (heap w)) 0 (shape a) (c_strides (shape a)) bool_),
     set_heap
       (heap w ++ [(fun v => if (c <=? v)%Z then 1%Z else 0%Z) <$> vs]) w).
Proof.
  intros Hvs. unfold numpy.ge.
  by rewrite (bind_ok _ _ _ _ _ (run_flat _ _ _ Hvs)), run_array.
Qed.

Lemma run_all w a vs :
  elements (heap w) a = Some vs ->
  numpy.all a w = (Ok (forallb (fun v => negb (v =? 0)%Z) vs), w).
Proof.
  intros Hvs. unfold numpy.all.
  by rewrite (bind_ok _ _ _ _ _ (run_flat _ _ _ Hvs)).
Qed.

Lemma run_is_None_or_nonneg w m :
  present_valid w m = true ->
  exists w', is_None_or_nonneg m w = (Ok (nonneg_of w m), w') /\
             heap w `prefix_of` heap w'.
Proof.
  destruct m as [a|]; simpl; [|by exists w].
  intros Hv. destruct (valid_elements _ _ Hv) as [vs Hvs]. rewrite Hvs.
  eexists. split.
  - rewrite (bind_ok _ _ _ _ _ (run_ge _ _ _ _ Hvs)).
    erewrite run_all.
    2:{ simpl. apply elements_fresh.
        rewrite length_fmap. by eapply elements_length. }
    rewrite forallb_ge_flags. reflexivity.
  - simpl. by apply prefix_app_r.
Qed.

Lemma forallb_false_elem {A} (f : A -> bool) l :
  forallb f l = false -> exists x, x ∈ l /\ f x = false.
Proof.
  induction l as [|y l IH]; simpl; [done|].
  destruct (f y) eqn:Hy; simpl.
  - intros (x & Hx & Hf)%IH. exists x. split; [by right|done].
  - intros _. exists y. split; [by left|done].
Qed.

Lemma nonneg_of_false w m :
  nonneg_of w m = false -> has_negative w m.
Proof.
  destruct m as [a|]; [|done]. simpl.
  destruct (elements (heap w) a) as [vs|] eqn:Hvs; [|done].
  intros (v & Hv & Hneg)%forallb_false_elem.
  apply list_elem_of_lookup in Hv as [k Hk].
  pose proof (elements_length _ _ _ Hvs) as Hlen.
  assert (k < length (indices (shape a))) as Hlt.
  { rewrite indices_length, <- Hlen. by eapply lookup_lt_Some. }
  apply lookup_lt_is_Some_2 in Hlt as [idx Hidx].
  assert (in_bounds (shape a) idx = true) as Hin
    by (apply elem_of_indices, list_elem_of_lookup; eauto).
  exists a, idx, v. repeat split; [done| |lia].
  apply mapM_Some in Hvs.
  destruct (Forall2_lookup_l _ _ _ _ _ Hvs Hidx) as (v' & Hv' & Hp).
  congruence.
Qed.

Lemma nonneg_of_true w m :
  present_valid w m = true -> nonneg_of w m = true -> ~ has_negative w m.
Proof.
  intros Hv Ht (a & idx & v & -> & Hin & Hp & Hneg). simpl in *.
  destruct (valid_elements _ _ Hv) as [vs Hvs]. rewrite Hvs in Ht.
  rewrite (elements_peek _ _ _ _ Hvs Hin) in Hp.
  apply list_elem_of_lookup_2 in Hp.
  rewrite forallb_forall in Ht. apply list_elem_of_In, Ht in Hp. lia.
Qed.

Lemma valid_prefix w w' a :
  heap w `prefix_of` heap w' -> valid w a = true -> valid w' a = true.
Proof.
  intros Hp. unfold valid.
  destruct (heap w !! base a) as [buf|] eqn:Hb.
  - by rewrite (prefix_lookup_Some _ _ _ _ Hb Hp).
  - by rewrite andb_false_r.
Qed.

Lemma present_valid_prefix w w' m :
  heap w `prefix_of` heap w' ->
  present_valid w m = true -> present_valid w' m = true.
Proof. destruct m; [apply valid_prefix|done]. Qed.

(** The messages tell the matrix, the number of dimensions and the
    shapes apart. *)
Lemma pretty_N_char_digit x : is_digit (pretty_N_char x) = true.
Proof. unfold pretty_N_char. by repeat case_match. Qed.

Lemma pretty_N_go_digits x s :
  all_digits s = true -> all_digits (pretty_N_go x s) = true.
Proof.
  revert s. induction (N.lt_wf_0 x) as [x _ IH]; intros s Hs.
  assert (x = 0 \/ 0 < x)%N as [->|Hx] by lia; [done|].
  rewrite pretty_N_go_step by done. apply IH; [by apply N.div_lt|].
  simpl. by rewrite pretty_N_char_digit.
Qed.

Lemma pretty_nat_digits (n : nat) : all_digits (pretty n) = true.
Proof.
  unfold pretty, pretty_nat, pretty, pretty_N.
  case_decide; [done|]. by apply pretty_N_go_digits.
Qed.

Lemma digits_app_inj s1 s2 c1 c2 r1 r2 :
  all_digits s1 = true -> all_digits s2 = true ->
  is_digit c1 = false -> is_digit c2 = false ->
  s1 +:+ String c1 r1 = s2 +:+ String c2 r2 ->
  s1 = s2 /\ c1 = c2 /\ r1 = r2.
Proof.
  revert s2. induction s1 as [|a s1 IH]; intros [|b s2]; simpl.
  - by intros _ _ _ _ [= -> ->].
  - intros _ [Hb _]%andb_true_iff Hc1 _ [= -> _]. congruence.
  - intros [Ha _]%andb_true_iff _ _ Hc2 [= -> _]. congruence.
  - intros [_ H1]%andb_true_iff [_ H2]%andb_true_iff Hc1 Hc2 [= -> Heq].
    destruct (IH _ H1 H2 Hc1 Hc2 Heq) as (-> & -> & ->). done.
Qed.

Lemma append_assoc (s1 s2 s3 : string) :
  (s1 +:+ s2) +:+ s3 = s1 +:+ (s2 +:+ s3).
Proof.
  induction s1 as [|c s1 IH]; [done|].
  change (String c ((s1 +:+ s2) +:+ s3) = String c (s1 +:+ s2 +:+ s3)).
  by rewrite IH.
Qed.

Lemma dimensions_message_inj what what' n n' :
  what ∈ matrix_names -> what' ∈ matrix_names ->
  dimensions_message what n = dimensions_message what' n' ->
  what = what' /\ n = n'.
Proof.
  unfold matrix_names.
  rewrite !elem_of_cons, !elem_of_nil. unfold dimensions_message.
  intros [->|[->|[->|[]]]] [->|[->|[->|[]]]]; simpl; intros [= H];
    split; try done; by apply (inj pretty).
Qed.

Lemma repr_pair_inj (a b a' b' : nat) r r' :
  ((pretty a +:+ ", " +:+ pretty b) +:+ ")") +:+ r
  = ((pretty a' +:+ ", " +:+ pretty b') +:+ ")") +:+ r' ->
  a = a' /\ b = b' /\ r = r'.
Proof.
  rewrite !append_assoc. simpl. intros H.
  apply digits_app_inj in H as (Ha & _ & H);
    [|apply pretty_nat_digits..|done|done].
  injection H as H.
  apply digits_app_inj in H as (Hb & _ & H);
    [|apply pretty_nat_digits..|done|done].
  split; [by apply (inj pretty)|]. split; [by apply (inj pretty)|done].
Qed.

Lemma shapes_message_inj what what' a b c d a' b' c' d' :
  what ∈ partner_names -> what' ∈ partner_names ->
  shapes_message what [a; b] [c; d] = shapes_message what' [a'; b'] [c'; d'] ->
  what = what' /\ [a; b] = [a'; b'] /\ [c; d] = [c'; d'].
Proof.
  unfold partner_names.
  rewrite !elem_of_cons, !elem_of_nil. unfold shapes_message, repr_shape.
  cbn [repr_items].
  intros [->|[->|[]]] [->|[->|[]]]; simpl; intros [= H];
    apply repr_pair_inj in H as (-> & -> & H); simpl in H;
    try discriminate; injection H as H;
    apply repr_pair_inj in H as (-> & -> & _); done.
Qed.

Ltac run_asserts :=
  repeat first
    [ rewrite bind_ret_l
    | rewrite bind_raise_l
    | match goal with
      | |- context [bind (if ?c then _ else _) _ _] => destruct c eqn:?
      | |- context [(if ?c then ret _ else raise _) _] => destruct c eqn:?
      end ];
  simpl.

Lemma check_consistency_outcome w s u r :
  present_valid w s = true -> present_valid w u = true ->
  present_valid w r = true ->
  (check_consistency s u r w).1
  = if nonneg_of w s && nonneg_of w u && nonneg_of w r
    then (dimension_and_shape_checks s u r w).1
    else Raise (AssertionError None).
Proof.
  intros Hs Hu Hr. unfold check_consistency.
  destruct (run_is_None_or_nonneg w s Hs) as (w1 & E1 & P1).
  rewrite (bind_ok _ _ _ _ _ E1).
  destruct (nonneg_of w s); cbn [assert andb];
    [rewrite bind_ret_l|by rewrite bind_raise_l].
  pose proof (present_valid_prefix _ _ _ P1 Hu) as Hu1.
  destruct (run_is_None_or_nonneg w1 u Hu1) as (w2 & E2 & P2).
  rewrite (bind_ok _ _ _ _ _ E2), (present_valid_elements _ _ _ Hu P1).
  destruct (nonneg_of w u); cbn [assert andb];
    [rewrite bind_ret_l|by rewrite bind_raise_l].
  assert (heap w `prefix_of` heap w2) as P12 by (by etrans).
  pose proof (present_valid_prefix _ _ _ P12 Hr) as Hr2.
  destruct (run_is_None_or_nonneg w2 r Hr2) as (w3 & E3 & P3).
  rewrite (bind_ok _ _ _ _ _ E3), (present_valid_elements _ _ _ Hr P12).
  destruct (nonneg_of w r); cbn [assert andb];
    [rewrite bind_ret_l|by rewrite bind_raise_l].
  unfold dimension_and_shape_checks, assert_two_dimensions, assert_same_shape,
    assert.
  destruct s as [sa|], u as [ua|], r as [ra|]; run_asserts; done.
Qed.

Lemma present_labels_valid w m :
  present_labels w m = true -> present_valid w m = true.
Proof. destruct m as [a|]; [apply label_matrix_valid|done]. Qed.

Ltac violation_cases :=
  repeat match goal with
    | H : (_ =? _) = true |- _ => apply Nat.eqb_eq in H
    | H : (_ =? _) = false |- _ => apply Nat.eqb_neq in H
    | H : bool_decide _ = true |- _ => apply bool_decide_eq_true in H
    | H : bool_decide _ = false |- _ => apply bool_decide_eq_false in H
    end.

(** C6 (as the code behaves), for label matrices, which are valid arrays
    of an integer type: [check_consistency] does not raise when all
    three arguments are [None]; it raises exactly when a violation it
    checks holds: a negative value in a present matrix, a present matrix
    that does not have two dimensions, or a shape of [unedited_segmented]
    or [small_removed_segmented] that differs from that of [segmented].
    The failure of a check on the dimensions carries a message that names
    the matrix and its number of dimensions, the failure of a check on the
    shapes a message that shows both shapes, and different matrices,
    numbers or shapes give different messages; the failure of a check on
    the sign carries no message. *)
Theorem check_consistency_raises w s u r :
  present_labels w s = true -> present_labels w u = true ->
  present_labels w r = true ->
  (check_consistency None None None w).1 = Ok tt /\
  match (check_consistency s u r w).1 with
  | Ok _ =>
      ~ has_negative w s /\ ~ has_negative w u /\ ~ has_negative w r /\
      ~ not_two_dimensional s /\ ~ not_two_dimensional u /\
      ~ not_two_dimensional r /\
      ~ shapes_differ s u /\ ~ shapes_differ s r
  | Raise e =>
      (e = AssertionError None /\
       (has_negative w s \/ has_negative w u \/ has_negative w r)) \/
      (exists a, s = Some a /\ ndim a <> 2 /\
         e = AssertionError
               (Some (dimensions_message "Segmented" (ndim a)))) \/
      (exists a, u = Some a /\ ndim a <> 2 /\
         e = AssertionError
               (Some (dimensions_message "Unedited segmented" (ndim a)))) \/
      (exists a, r = Some a /\ ndim a <> 2 /\
         e = AssertionError
               (Some (dimensions_message "Small removed segmented" (ndim a)))) \/
      (exists a b, s = Some a /\ u = Some b /\ shape a <> shape b /\
         e = AssertionError
               (Some (shapes_message "unedited segmented"
                        (shape a) (shape b)))) \/
      (exists a b, s = Some a /\ r = Some b /\ shape a <> shape b /\
         e = AssertionError
               (Some (shapes_message "small removed segmented"
                        (shape a) (shape b))))
  end /\
  (forall what what' n n',
     what ∈ matrix_names -> what' ∈ matrix_names ->
     dimensions_message what n = dimensions_message what' n' ->
     what = what' /\ n = n') /\
  (forall what what' a b c d a' b' c' d',
     what ∈ partner_names -> what' ∈ partner_names ->
     shapes_message what [a; b] [c; d]
     = shapes_message what' [a'; b'] [c'; d'] ->
     what = what' /\ [a; b] = [a'; b'] /\ [c; d] = [c'; d']).
Proof.
  intros Hs%present_labels_valid Hu%present_labels_valid
    Hr%present_labels_valid.
  split; [done|].
  split; [|split; [apply dimensions_message_inj|apply shapes_message_inj]].
  rewrite (check_consistency_outcome _ _ _ _ Hs Hu Hr).
  destruct (nonneg_of w s) eqn:Ns; simpl;
    [|left; split; [done|]; left; by apply nonneg_of_false].
  destruct (nonneg_of w u) eqn:Nu; simpl;
    [|left; split; [done|]; right; left; by apply nonneg_of_false].
  destruct (nonneg_of w r) eqn:Nr; simpl;
    [|left; split; [done|]; right; right; by apply nonneg_of_false].
  pose proof (nonneg_of_true _ _ Hs Ns). pose proof (nonneg_of_true _ _ Hu Nu).
  pose proof (nonneg_of_true _ _ Hr Nr).
  unfold dimension_and_shape_checks, assert_two_dimensions, assert_same_shape,
    assert.
  unfold not_two_dimensional, shapes_differ.
  destruct s as [sa|], u as [ua|], r as [ra|]; run_asserts; violation_cases;
    first
      [ repeat split; try done;
        first [ by intros (? & [=] & _)
              | by intros (? & ? & [=] & _)
              | by intros (? & ? & _ & [=] & _)
              | by intros (? & [= <-] & ?)
              | by intros (? & ? & [= <-] & [= <-] & ?) ]
      | right; left; by eauto
      | right; right; left; by eauto
      | right; right; right; left; by eauto
      | right; right; right; right; left; by eauto 10
      | right; right; right; right; right; by eauto 10 ].
Qed.

(** C2 (as the code behaves), for label matrices, which are valid arrays
    of an integer type: [check_consistency] compares the shape of
    [segmented] with that of [unedited_segmented] and with that of
    [small_removed_segmented], and raises when one of these pairs is
    present and differs.  It does not compare [unedited_segmented] with
    [small_removed_segmented]: without [segmented], two such matrices that
    are two-dimensional and non-negative pass, whatever their shapes. *)
Theorem check_consistency_shapes w s u r :
  present_labels w s = true -> present_labels w u = true ->
  present_labels w r = true ->
  (shapes_differ s u \/ shapes_differ s r ->
   exists e, (check_consistency s u r w).1 = Raise e) /\
  (s = None ->
   ~ has_negative w u -> ~ has_negative w r ->
   ~ not_two_dimensional u -> ~ not_two_dimensional r ->
   (check_consistency s u r w).1 = Ok tt).
Proof.
  intros Hs%present_labels_valid Hu%present_labels_valid
    Hr%present_labels_valid.
  rewrite (check_consistency_outcome _ _ _ _ Hs Hu Hr). split.
  - intros Hd.
    destruct (nonneg_of w s && nonneg_of w u && nonneg_of w r); [|by eauto].
    unfold dimension_and_shape_checks, assert_two_dimensions,
      assert_same_shape, assert.
    destruct Hd as [(a & b & -> & -> & Hd)|(a & b & -> & -> & Hd)];
      [destruct r|destruct u]; run_asserts; violation_cases;
      by eauto.
  - intros -> Nu Nr Du Dr.
    destruct (nonneg_of w u) eqn:Eu; [|by apply nonneg_of_false in Eu].
    destruct (nonneg_of w r) eqn:Er; [|by apply nonneg_of_false in Er].
    simpl.
    unfold dimension_and_shape_checks, assert_two_dimensions,
      assert_same_shape, assert.
    unfold not_two_dimensional in *.
    destruct u, r; run_asserts; violation_cases; try done;
      exfalso; eauto.
Qed.

(** Against C2 as the specification words it: with [segmented] absent, an
    [unedited_segmented] of shape (1, 1) and a [small_removed_segmented]
    of shape (1, 2) are accepted. *)
Lemma check_consistency_unchecked_pair :
  shape matrix_1x1 <> shape matrix_1x2 /\
  (check_consistency None (Some matrix_1x1) (Some matrix_1x2)
     three_matrices).1 = Ok tt.
Proof. split; [done|]. vm_compute. reflexivity. Qed.

(** Against C6 as the specification words it: a negative element in
    [segmented] and a negative element in [unedited_segmented] lead to the
    same failure, an [AssertionError] without message, from which the
    offending matrix cannot be told. *)
Lemma check_consistency_negative_no_message :
  (check_consistency (Some matrix_negative) None None three_matrices).1
  = Raise (AssertionError None) /\
  (check_consistency None (Some matrix_negative) None three_matrices).1
  = Raise (AssertionError None).
Proof. split; vm_compute; reflexivity. Qed.

(** ** [crop_labels_and_image] *)

Lemma bind_tuple_get {B} t i (k : nat -> M B) w :
  bind (tuple_get t i) k w
  = match t !! i with
    | Some n => k n w
    | None => (Raise IndexError, w)
    end.
Proof. unfold tuple_get. by destruct (t !! i). Qed.

Lemma bind_getslice {B} a stops (k : ndarray -> M B) w :
  bind (numpy.getslice a stops) k w
  = match numpy.slice_shape stops (shape a) with
    | Some shp =>
        k (NDArray (base a) (offset a) shp (strides a) (arr_dtype a)) w
    | None => (Raise IndexError, w)
    end.
Proof.
  unfold numpy.getslice. by destruct (numpy.slice_shape stops (shape a)).
Qed.

(** A slice from the origin shows the cells of the array it was taken
    from. *)
Lemma peek_view h a shp idx :
  peek h (NDArray (base a) (offset a) shp (strides a) (arr_dtype a)) idx
  = peek h a idx.
Proof. done. Qed.

Lemma in_bounds_slice stops shp shp' idx :
  numpy.slice_shape stops shp = Some shp' ->
  in_bounds shp' idx = true -> in_bounds shp idx = true.
Proof.
  revert shp shp' idx.
  induction stops as [|st stops IH]; intros shp shp' idx; simpl.
  - by intros [= ->].
  - destruct shp as [|s shp]; [done|].
    destruct (numpy.slice_shape stops shp) as [r|] eqn:Hr; [|done].
    simpl. intros [= <-]. destruct idx as [|i idx]; [done|]. simpl.
    intros [Hi Hidx]%andb_true_iff. apply andb_true_iff. split.
    + apply Nat.ltb_lt in Hi. apply Nat.ltb_lt. destruct st; lia.
    + by eapply IH.
Qed.

Lemma in_bounds_mono shp shp' idx :
  Forall2 le shp' shp ->
  in_bounds shp' idx = true -> in_bounds shp idx = true.
Proof.
  intros H. revert idx.
  induction H as [|s' s shp' shp Hs _ IH]; intros [|i idx]; simpl; try done.
  intros [Hi Hidx]%andb_true_iff. apply andb_true_iff. split; [|by apply IH].
  apply Nat.ltb_lt in Hi. apply Nat.ltb_lt. lia.
Qed.

(** C5: for a labels matrix with two or three axes and an image with the
    same axes, possibly followed by a channel axis, [crop_labels_and_image]
    returns views of both, cropped from index 0: the spatial shape of both
    is the elementwise minimum of the two spatial shapes, the channel axis
    of the image is kept whole, and every element of a result is the
    element of the input at the same index. *)
Theorem crop_labels_and_image_common w labels image :
  croppable labels image ->
  exists l i,
    crop_labels_and_image labels image w = (Ok (l, i), w) /\
    shape l
    = zip_with Nat.min (shape labels) (take (ndim labels) (shape image)) /\
    shape i
    = zip_with Nat.min (shape labels) (take (ndim labels) (shape image))
      ++ drop (ndim labels) (shape image) /\
    (forall idx, in_bounds (shape l) idx = true ->
       in_bounds (shape labels) idx = true /\
       peek (heap w) l idx = peek (heap w) labels idx) /\
    (forall idx, in_bounds (shape i) idx = true ->
       in_bounds (shape image) idx = true /\
       peek (heap w) i idx = peek (heap w) image idx).
Proof.
  unfold croppable, ndim. intros H.
  destruct (shape labels) as [|l0 [|l1 [|l2 [|? ?]]]] eqn:El;
    destruct (shape image) as [|i0 [|i1 [|i2 [|i3 [|? ?]]]]] eqn:Ei;
    simpl in H; try (exfalso; lia); clear H;
    unfold crop_labels_and_image, ndim; rewrite ?El, ?Ei;
    cbn [length Nat.eqb];
    (eexists _, _; split;
     [ repeat (rewrite bind_tuple_get; cbn [lookup list_lookup]);
       rewrite bind_getslice, El;
       cbn [numpy.slice_shape fmap option_fmap option_map];
       rewrite bind_getslice, Ei; reflexivity
     | ]);
    (split; [simpl; repeat (f_equal; try lia)|]);
    (split; [simpl; repeat (f_equal; try lia)|]);
    split; intros idx Hidx; (split; [|done]).
  all: eapply in_bounds_mono; [|exact Hidx]; simpl; repeat constructor; lia.
Qed.

(** ** Allocation and assignment *)

Lemma run_zeros shp t w :
  numpy.zeros shp t w
  = (Ok (NDArray (length (heap w)) 0 shp (c_strides shp) t),
     set_heap (heap w ++ [replicate (numel shp) 0%Z]) w).
Proof. done. Qed.

Lemma run_ones shp t w :
  numpy.ones shp t w
  = (Ok (NDArray (length (heap w)) 0 shp (c_strides shp) t),
     set_heap (heap w ++ [replicate (numel shp) 1%Z]) w).
Proof. done. Qed.

Lemma in_bounds_Forall2 shp idx :
  in_bounds shp idx = true <-> Forall2 lt idx shp.
Proof.
  revert idx. induction shp as [|s shp IH]; intros [|i idx]; simpl.
  - split; [constructor|done].
  - split; [done|inversion 1].
  - split; [done|inversion 1].
  - rewrite andb_true_iff, Nat.ltb_lt, IH. split.
    + intros [? ?]. by constructor.
    + inversion 1; by subst.
Qed.

Lemma Forall2_reversed {A B} (P : A -> B -> Prop) l k :
  Forall2 P l k -> Forall2 P (reverse l) (reverse k).
Proof.
  induction 1 as [|x y l k Hxy _ IH]; [constructor|].
  rewrite !reverse_cons. apply Forall2_app; [done|]. by repeat constructor.
Qed.

Lemma bcast_ok_refl rshp : numpy.bcast_ok rshp rshp = true.
Proof.
  induction rshp as [|s rshp IH]; simpl; [done|].
  by rewrite Nat.eqb_refl, IH.
Qed.

Lemma bcast_index_same rshp ridx :
  Forall2 lt ridx rshp -> numpy.bcast_index rshp ridx = ridx.
Proof.
  induction 1 as [|i s ridx rshp Hi _ IH]; simpl; [done|].
  rewrite IH. f_equal. destruct (s =? 1) eqn:Hs; [|done].
  apply Nat.eqb_eq in Hs. lia.
Qed.

(** Without broadcasting, a cell is assigned from the cell at the same
    index. *)
Lemma src_index_same shp idx :
  in_bounds shp idx = true -> numpy.src_index shp idx = idx.
Proof.
  intros H%in_bounds_Forall2%Forall2_reversed. unfold numpy.src_index.
  by rewrite (bcast_index_same _ _ H), reverse_involutive.
Qed.

Lemma forallb_positions a (buf : list Z) :
  (forall idx, in_bounds (shape a) idx = true -> flat_index a idx < length buf) ->
  forallb (fun p => p <? length buf) (flat_index a <$> indices (shape a))
  = true.
Proof.
  intros H. apply forallb_forall. intros p Hp.
  apply list_elem_of_In, list_elem_of_fmap in Hp as (idx & -> & Hidx).
  apply Nat.ltb_lt, H. by apply elem_of_indices.
Qed.

Lemma run_store w dst vs (buf : list Z) :
  heap w !! base dst = Some buf ->
  (forall idx, in_bounds (shape dst) idx = true ->
     flat_index dst idx < length buf) ->
  numpy.store dst vs w
  = (Ok tt,
     set_heap
       (<[base dst :=
            numpy.write_all buf
              (zip (flat_index dst <$> indices (shape dst)) vs)]> (heap w))
       w).
Proof.
  intros Hb Hlt. unfold numpy.store, bind, get_heap, expect. rewrite Hb. simpl.
  by rewrite (forallb_positions _ _ Hlt).
Qed.

Lemma run_setitem w dst src (buf : list Z) :
  shape src = shape dst ->
  (forall idx, in_bounds (shape src) idx = true ->
     is_Some (peek (heap w) src idx)) ->
  heap w !! base dst = Some buf ->
  (forall idx, in_bounds (shape dst) idx = true ->
     flat_index dst idx < length buf) ->
  exists vs,
    mapM (peek (heap w) src) (indices (shape src)) = Some vs /\
    numpy.setitem dst src w
    = (Ok tt,
       set_heap
         (<[base dst :=
              numpy.write_all buf
                (zip (flat_index dst <$> indices (shape dst))
                   (numpy.cast (arr_dtype src) (arr_dtype dst) <$> vs))]>
            (heap w))
         w).
Proof.
  intros Hshp Hsrc Hb Hlt.
  destruct (mapM (peek (heap w) src) (indices (shape src))) as [vs|] eqn:Hvs.
  2:{ apply mapM_None, Exists_exists in Hvs as (idx & Hidx & Hn).
      apply elem_of_indices, Hsrc in Hidx as [v Hv]. congruence. }
  exists vs. split; [done|].
  unfold numpy.setitem, numpy.setitem_with.
  replace (numpy.bcast_ok (reverse (shape src)) (reverse (shape dst)))
    with true by (by rewrite Hshp, bcast_ok_refl).
  unfold bind at 1, get_heap at 1.
  rewrite Hshp in Hvs.
  erewrite Forall_mapM_ext, Hvs.
  2:{ apply Forall_forall. intros idx Hidx.
      rewrite src_index_same; [done|]. rewrite Hshp. by apply elem_of_indices. }
  cbn [expect]. rewrite bind_ret_l.
  by apply run_store.
Qed.

Lemma run_fill w dst v (buf : list Z) :
  heap w !! base dst = Some buf ->
  (forall idx, in_bounds (shape dst) idx = true ->
     flat_index dst idx < length buf) ->
  numpy.fill dst v w
  = (Ok tt,
     set_heap
       (<[base dst :=
            numpy.write_all buf
              (zip (flat_index dst <$> indices (shape dst))
                 (replicate (numel (shape dst))
                    (numpy.cast int64 (arr_dtype dst) v)))]> (heap w))
       w).
Proof. intros. unfold numpy.fill. by apply run_store. Qed.

Lemma insert_last {A} (h : list A) x y :
  <[length h := x]> (h ++ [y]) = h ++ [x].
Proof.
  replace (length h) with (length h + 0) by lia.
  by rewrite insert_app_r.
Qed.

(** A write through an array leaves the buffers of other arrays alone. *)
Lemma setitem_scalar_frame a idx v w b :
  b <> base a ->
  heap (numpy.setitem_scalar a idx v w).2 !! b = heap w !! b.
Proof.
  intros Hb. unfold numpy.setitem_scalar, bind, get_heap, expect, put_heap,
    raise, ret.
  repeat case_match; simplify_eq; simpl; try done.
  by rewrite list_lookup_insert_ne.
Qed.

Lemma run_setitem_scalar a idx v w (buf : list Z) :
  in_bounds (shape a) idx = true ->
  heap w !! base a = Some buf ->
  flat_index a idx < length buf ->
  numpy.setitem_scalar a idx v w
  = (Ok tt, set_heap (<[base a := <[flat_index a idx := v]> buf]> (heap w)) w).
Proof.
  intros Hin Hb Hlt. unfold numpy.setitem_scalar, bind, get_heap, expect.
  rewrite Hin, Hb. simpl.
  apply Nat.ltb_lt in Hlt. by rewrite Hlt.
Qed.

(** ** [size_similarly] *)

Lemma run_covers labels secondary w H W h w' rest :
  shape labels = [H; W] -> shape secondary = h :: w' :: rest ->
  covers labels secondary w = (Ok ((H <=? h) && (W <=? w')), w).
Proof.
  intros El Es. unfold covers. rewrite El, Es.
  repeat (rewrite bind_tuple_get; cbn [lookup list_lookup]).
  destruct (H <=? h); [|done].
  by repeat (rewrite bind_tuple_get; cbn [lookup list_lookup]).
Qed.

(** Case (a): the first two axes agree. *)
Lemma size_similarly_same labels secondary w :
  take 2 (shape labels) = take 2 (shape secondary) ->
  size_similarly labels secondary w
  = (Ok (secondary,
         NDArray (length (heap w)) 0 (shape secondary)
           (c_strides (shape secondary)) bool_),
     set_heap (heap w ++ [replicate (numel (shape secondary)) 1%Z]) w).
Proof.
  intros Heq. unfold size_similarly.
  rewrite bool_decide_eq_true_2 by done.
  by rewrite (bind_ok _ _ _ _ _ (run_ones _ _ _)).
Qed.

(** Case (b): the secondary matrix covers the labels matrix. *)
Lemma size_similarly_crop labels secondary w H W h w' rest :
  shape labels = [H; W] -> shape secondary = h :: w' :: rest ->
  [H; W] <> [h; w'] -> H <= h -> W <= w' ->
  size_similarly labels secondary w
  = (Ok (NDArray (base secondary) (offset secondary) (H :: W :: rest)
           (strides secondary) (arr_dtype secondary),
         NDArray (length (heap w)) 0 [H; W] (c_strides [H; W]) bool_),
     set_heap (heap w ++ [replicate (numel [H; W]) 1%Z]) w).
Proof.
  intros El Es Hne HH HW. unfold size_similarly.
  rewrite bool_decide_eq_false_2 by (by rewrite El, Es).
  rewrite (bind_ok _ _ _ _ _ (run_covers _ _ _ _ _ _ _ _ El Es)).
  rewrite (leb_correct _ _ HH), (leb_correct _ _ HW). cbn [andb].
  unfold ndim. rewrite Es, El.
  destruct rest as [|c rest]; cbn [length Nat.eqb];
    repeat (rewrite bind_tuple_get; cbn [lookup list_lookup]);
    rewrite bind_getslice, Es;
    cbn [numpy.slice_shape fmap option_fmap option_map];
    rewrite (bind_ok _ _ _ _ _ (run_ones _ _ _));
    rewrite !Nat.min_l by done; reflexivity.
Qed.

Lemma write_all_length buf pvs :
  length (numpy.write_all buf pvs) = length buf.
Proof.
  unfold numpy.write_all. revert buf.
  induction pvs as [|pv pvs IH]; intros buf; simpl; [done|].
  by rewrite IH, length_insert.
Qed.

Lemma write_all_other buf ps vs p :
  p ∉ ps -> numpy.write_all buf (zip ps vs) !! p = buf !! p.
Proof.
  unfold numpy.write_all. revert buf vs.
  induction ps as [|q ps IH]; intros buf [|v vs] Hp; simpl; try done.
  apply not_elem_of_cons in Hp as [Hne Hp].
  rewrite IH by done. by apply list_lookup_insert_ne.
Qed.

Lemma write_all_at buf ps vs k p v :
  NoDup ps -> ps !! k = Some p -> vs !! k = Some v -> p < length buf ->
  numpy.write_all buf (zip ps vs) !! p = Some v.
Proof.
  revert buf vs k.
  induction ps as [|q ps IH]; intros buf [|v' vs] k Hnd Hp Hv Hlt;
    try done.
  apply NoDup_cons in Hnd as [Hq Hnd].
  destruct k as [|k]; simpl in *.
  - simplify_eq.
    change (numpy.write_all (<[p:=v]> buf) (zip ps vs) !! p = Some v).
    rewrite write_all_other by done. by apply list_lookup_insert_eq.
  - change (numpy.write_all (<[q:=v']> buf) (zip ps vs) !! p = Some v).
    eapply IH; eauto. by rewrite length_insert.
Qed.

Lemma NoDup_indices shp : NoDup (indices shp).
Proof.
  apply (NoDup_fmap_1 (fun idx => dot idx (c_strides shp))).
  rewrite c_positions. apply NoDup_seq.
Qed.

(** In a row-major array different indices have different positions. *)
Lemma dot_c_strides_inj shp idx idx' :
  in_bounds shp idx = true -> in_bounds shp idx' = true ->
  dot idx (c_strides shp) = dot idx' (c_strides shp) -> idx = idx'.
Proof.
  intros H1%indices_lookup H2%indices_lookup Heq.
  rewrite Heq in H1. congruence.
Qed.

(** Writing the values [vs] through the view of shape [reg] at the origin
    of a row-major buffer of shape [shp]: inside the region a cell holds
    its value, outside it is as before. *)
Lemma write_region shp reg buf vs idx :
  Forall2 le reg shp -> length vs = numel reg -> length buf = numel shp ->
  in_bounds shp idx = true ->
  numpy.write_all buf
    (zip ((fun i => dot i (c_strides shp)) <$> indices reg) vs)
    !! dot idx (c_strides shp)
  = if in_bounds reg idx then vs !! dot idx (c_strides reg)
    else buf !! dot idx (c_strides shp).
Proof.
  intros Hle Hvs Hbuf Hidx.
  destruct (in_bounds reg idx) eqn:Hreg.
  - pose proof (indices_lookup _ _ Hreg) as Hk.
    destruct (lookup_lt_is_Some_2 vs (dot idx (c_strides reg))) as [v Hv].
    { rewrite Hvs. by apply dot_c_strides_lt. }
    rewrite Hv. eapply write_all_at; [|by rewrite list_lookup_fmap, Hk|done|].
    + apply NoDup_fmap_2_strong; [|apply NoDup_indices].
      intros i i' Hi%elem_of_indices Hi'%elem_of_indices.
      apply dot_c_strides_inj; by eapply in_bounds_mono.
    + rewrite Hbuf. by apply dot_c_strides_lt.
  - apply write_all_other.
    intros (idx' & Heq & Hidx'%elem_of_indices)%list_elem_of_fmap.
    apply dot_c_strides_inj in Heq; [|done|by eapply in_bounds_mono].
    congruence.
Qed.

Lemma bind_assoc {A B C} (m : M A) (k1 : A -> M B) (k2 : B -> M C) w :
  bind (bind m k1) k2 w = bind m (fun x => bind (k1 x) k2) w.
Proof. unfold bind. by destruct (m w) as [[a|e] w']. Qed.

Lemma valid_slice w a stops shp :
  valid w a = true -> numpy.slice_shape stops (shape a) = Some shp ->
  forall idx, in_bounds shp idx = true ->
    is_Some (peek (heap w)
               (NDArray (base a) (offset a) shp (strides a) (arr_dtype a)) idx).
Proof.
  intros Hv Hs idx Hidx. rewrite peek_view. apply valid_peek; [done|].
  by eapply in_bounds_slice.
Qed.

Lemma Forall2_le_refl l : Forall2 le l l.
Proof. induction l; by constructor. Qed.

Lemma fmap_cast_same t (vs : list Z) : numpy.cast t t <$> vs = vs.
Proof.
  rewrite <- (list_fmap_id vs) at 2. apply list_fmap_ext.
  intros _ v _. unfold numpy.cast. by rewrite decide_True.
Qed.

(** Case (c): the secondary matrix is smaller in some axis. *)
Lemma size_similarly_pad labels secondary w H W h w' rest :
  shape labels = [H; W] -> shape secondary = h :: w' :: rest ->
  (H <=? h) && (W <=? w') = false ->
  valid w secondary = true ->
  exists rbuf mbuf,
    size_similarly labels secondary w
    = (Ok (NDArray (length (heap w)) 0 (H :: W :: rest)
             (c_strides (H :: W :: rest)) (arr_dtype secondary),
           NDArray (S (length (heap w))) 0 [H; W] (c_strides [H; W]) bool_),
       set_heap (heap w ++ [rbuf; mbuf]) w) /\
    length rbuf = numel (H :: W :: rest) /\
    length mbuf = numel [H; W] /\
    (forall idx, in_bounds (H :: W :: rest) idx = true ->
       rbuf !! dot idx (c_strides (H :: W :: rest))
       = if in_bounds (Nat.min h H :: Nat.min w' W :: rest) idx
         then peek (heap w) secondary idx else Some 0%Z) /\
    (forall idx, in_bounds [H; W] idx = true ->
       mbuf !! dot idx (c_strides [H; W])
       = Some (if in_bounds [Nat.min h H; Nat.min w' W] idx
               then 1%Z else 0%Z)).
Proof.
  intros El Es Hnot Hv.
  set (shp := H :: W :: rest).
  set (reg := Nat.min h H :: Nat.min w' W :: rest).
  set (w1 := set_heap (heap w ++ [replicate (numel shp) 0%Z]) w).
  set (result := NDArray (length (heap w)) 0 shp (c_strides shp)
                   (arr_dtype secondary)).
  set (src := NDArray (base secondary) (offset secondary) reg
                (strides secondary) (arr_dtype secondary)).
  set (dst := NDArray (length (heap w)) 0 reg (c_strides shp)
                (arr_dtype secondary)).
  assert (Forall2 le reg shp) as Hreg.
  { subst reg shp. repeat (constructor; [lia|]). apply Forall2_le_refl. }
  assert (numpy.slice_shape
            (if length rest =? 0 then [Some (Nat.min h H); Some (Nat.min w' W)]
             else [Some (Nat.min h H); Some (Nat.min w' W); None])
            (shape secondary) = Some reg) as Hs1.
  { rewrite Es. subst reg. destruct rest; simpl;
      by rewrite (Nat.min_l (Nat.min h H) h), (Nat.min_l (Nat.min w' W) w')
        by lia. }
  assert (numpy.slice_shape
            (if length rest =? 0 then [Some (Nat.min h H); Some (Nat.min w' W)]
             else [Some (Nat.min h H); Some (Nat.min w' W); None])
            shp = Some reg) as Hs2.
  { subst reg shp. destruct rest; simpl;
      by rewrite (Nat.min_l (Nat.min h H) H), (Nat.min_l (Nat.min w' W) W)
        by lia. }
  destruct (run_setitem w1 dst src (replicate (numel shp) 0%Z)) as (vs & Hvs & E).
  { done. }
  { intros idx Hidx. subst src w1. simpl heap.
    destruct (valid_slice _ _ _ _ Hv Hs1 idx Hidx) as [v Hp].
    exists v. rewrite <- Hp. apply peek_alloc. simpl. by apply valid_base. }
  { subst w1 dst. simpl. by rewrite lookup_app_r, Nat.sub_diag by lia. }
  { intros idx Hidx. rewrite length_replicate. simpl.
    apply dot_c_strides_lt. by eapply in_bounds_mono. }
  set (mreg := [Nat.min h H; Nat.min w' W]).
  set (region := NDArray (S (length (heap w))) 0 mreg (c_strides [H; W]) bool_).
  set (rbuf := numpy.write_all (replicate (numel shp) 0%Z)
                 (zip ((fun i => dot i (c_strides shp)) <$> indices reg) vs)).
  set (mbuf := numpy.write_all (replicate (numel [H; W]) 0%Z)
                 (zip ((fun i => dot i (c_strides [H; W])) <$> indices mreg)
                    (replicate (numel mreg) 1%Z))).
  assert (Forall2 le mreg [H; W]) as Hmreg
    by (subst mreg; repeat (constructor; [lia|]); constructor).
  exists rbuf, mbuf. split; [|split; [|split; [|split]]].
  - unfold size_similarly.
    rewrite bool_decide_eq_false_2.
    2:{ rewrite El, Es. intros [= -> ->].
        by rewrite !Nat.leb_refl in Hnot. }
    rewrite (bind_ok _ _ _ _ _ (run_covers _ _ _ _ _ _ _ _ El Es)), Hnot.
    unfold ndim. rewrite El, Es. cbn [app drop].
    rewrite (bind_ok _ _ _ _ _ (run_zeros _ _ _)).
    repeat (rewrite bind_tuple_get; cbn [lookup list_lookup]).
    rewrite drop_0.
    change (length (h :: w' :: rest) =? 2) with (length rest =? 0).
    assert (bind (numpy.setitem dst src)
              (fun _ =>
                 let* mask := numpy.zeros [H; W] bool_ in
                 let* region :=
                   numpy.getslice mask
                     [Some (Nat.min h H); Some (Nat.min w' W)] in
                 let* _ := numpy.fill region 1 in
                 ret (result, mask)) w1
            = (Ok (result,
                   NDArray (S (length (heap w))) 0 [H; W] (c_strides [H; W])
                     bool_),
               set_heap (heap w ++ [rbuf; mbuf]) w)) as Hrest.
    { assert (numpy.setitem dst src w1
              = (Ok tt, set_heap (heap w ++ [rbuf]) w)) as E1.
      { rewrite E. subst w1 dst src rbuf. unfold set_heap.
        cbn [heap base arr_dtype rng default_colormap].
        by rewrite insert_last, fmap_cast_same. }
      rewrite (bind_ok _ _ _ _ _ E1).
      rewrite (bind_ok _ _ _ _ _ (run_zeros _ _ _)).
      rewrite bind_getslice.
      cbn [shape numpy.slice_shape fmap option_fmap option_map].
      rewrite (Nat.min_l (Nat.min h H) H), (Nat.min_l (Nat.min w' W) W) by lia.
      cbn [heap set_heap base offset strides arr_dtype].
      rewrite length_app. cbn [length]. rewrite Nat.add_1_r.
      assert (((heap w ++ [rbuf]) ++ [replicate (numel [H; W]) 0%Z])
                !! S (length (heap w))
              = Some (replicate (numel [H; W]) 0%Z)) as Hlk.
      { rewrite <- app_assoc. cbn [app].
        replace (S (length (heap w))) with (length (heap w) + 1) by lia.
        by rewrite lookup_app_r, Nat.add_sub' by lia. }
      assert (forall idx, in_bounds (shape region) idx = true ->
                flat_index region idx
                < length (replicate (numel [H; W]) 0%Z)) as Hbd.
      { intros idx Hidx. rewrite length_replicate.
        apply dot_c_strides_lt. by eapply in_bounds_mono. }
      erewrite bind_ok;
        [|apply (run_fill
                   (set_heap ((heap w ++ [rbuf])
                              ++ [replicate (numel [H; W]) 0%Z]) w)
                   region 1 _ Hlk Hbd)].
      unfold ret. f_equal. unfold set_heap.
      cbn [heap base shape arr_dtype rng default_colormap].
      f_equal. rewrite <- app_assoc. cbn [app].
      subst region mbuf. cbn [base].
      replace (S (length (heap w))) with (length (heap w) + 1) by lia.
      rewrite insert_app_r. reflexivity. }
    revert Hs1 Hs2.
    destruct (length rest =? 0); intros Hs1 Hs2;
      rewrite bind_assoc, bind_getslice, Hs1, bind_assoc, bind_getslice;
      cbn [shape]; fold shp; rewrite Hs2; exact Hrest.
  - subst rbuf. by rewrite write_all_length, length_replicate.
  - subst mbuf. by rewrite write_all_length, length_replicate.
  - intros idx Hidx. subst rbuf.
    rewrite write_region; [|done|..|done].
    + destruct (in_bounds reg idx) eqn:Hin.
      * pose proof (elements_peek (heap w1) src vs idx Hvs Hin) as Hp.
        change (shape src) with reg in Hp. rewrite <- Hp.
        change (peek (heap w1) src idx)
          with (peek (heap w ++ [replicate (numel shp) 0%Z]) secondary idx).
        apply peek_alloc. by apply valid_base.
      * apply lookup_replicate_2. by apply dot_c_strides_lt.
    + apply length_mapM in Hvs. by rewrite <- Hvs, indices_length.
    + by rewrite length_replicate.
  - intros idx Hidx. subst mbuf.
    rewrite write_region; [|done|by rewrite length_replicate..|done].
    destruct (in_bounds mreg idx) eqn:Hin.
    + apply lookup_replicate_2. by apply dot_c_strides_lt.
    + apply lookup_replicate_2. by apply dot_c_strides_lt.
Qed.

Lemma peek_ext h h' a idx :
  h' !! base a = h !! base a -> peek h' a idx = peek h a idx.
Proof. unfold peek. by intros ->. Qed.

(** C3 (where the code departs from it): in case (a), for a secondary
    array with channels, the mask does not have the shape of the labels:
    for a 2 x 2 labels matrix and a 2 x 2 x 3 secondary array,
    [size_similarly] returns the secondary array with a mask of shape
    (2, 2, 3), which is not the shape (2, 2) of the labels matrix. *)
Theorem size_similarly_channel_mask :
  exists mask w',
    size_similarly labels_2x2 rgb_2x2 labels_and_rgb
    = (Ok (rgb_2x2, mask), w') /\
    shape mask = [2; 2; 3] /\ shape labels_2x2 = [2; 2].
Proof. eexists _, _. split; [|split]; reflexivity. Qed.

(** C4 (as the code behaves): when the secondary matrix is smaller than the
    labels matrix in some axis (case (c)), the returned array is a new
    array, and a later write to any of its elements leaves every element
    of the secondary array as it was.  When the secondary matrix covers
    the labels matrix and is larger (case (b)), the returned array is a
    view of the secondary array: a later write to one of its elements
    changes that element of the secondary array. *)
Theorem size_similarly_copy_or_view w labels secondary H W h w' rest :
  shape labels = [H; W] -> shape secondary = h :: w' :: rest ->
  valid w secondary = true -> [H; W] <> [h; w'] ->
  exists r m w1,
    size_similarly labels secondary w = (Ok (r, m), w1) /\
    if (H <=? h) && (W <=? w') then
      base r = base secondary /\
      forall idx v, in_bounds (shape r) idx = true ->
        exists w2,
          numpy.setitem_scalar r idx v w1 = (Ok tt, w2) /\
          peek (heap w2) secondary idx = Some v
    else
      base r = length (heap w) /\
      forall idx v idx',
        peek (heap (numpy.setitem_scalar r idx v w1).2) secondary idx'
        = peek (heap w) secondary idx'.
Proof.
  intros El Es Hv Hne.
  pose proof (valid_base _ _ Hv) as Hb.
  destruct ((H <=? h) && (W <=? w')) eqn:Hc.
  - apply andb_true_iff in Hc as [HH%Nat.leb_le HW%Nat.leb_le].
    eexists _, _, _. split; [by eapply size_similarly_crop|].
    split; [done|]. intros idx v Hidx. cbn [shape] in Hidx.
    destruct (valid_inv _ _ Hv) as (_ & buf & Hbuf & Hlt).
    assert (in_bounds (shape secondary) idx = true) as Hin.
    { rewrite Es. eapply in_bounds_mono; [|exact Hidx].
      repeat (constructor; [lia|]). apply Forall2_le_refl. }
    eexists. split.
    + apply (run_setitem_scalar _ _ _ _ buf); [done| |by apply Hlt].
      cbn [heap set_heap base]. by apply lookup_app_l_Some.
    + unfold peek. cbn [heap set_heap base].
      rewrite list_lookup_insert_eq by (rewrite length_app; lia).
      cbn [mbind option_bind].
      apply list_lookup_insert_eq. by apply Hlt.
  - destruct (size_similarly_pad _ _ _ _ _ _ _ _ El Es Hc Hv)
      as (rbuf & mbuf & E & _).
    eexists _, _, _. split; [exact E|]. split; [done|].
    intros idx v idx'. apply peek_ext.
    rewrite setitem_scalar_frame by (cbn [base]; lia).
    cbn [heap set_heap]. by apply lookup_app_l.
Qed.

(** Against C4 as the specification words it, in case (b): for a 1 x 1 labels
    matrix and a 1 x 2 secondary matrix the result is a view, and writing
    9 to its element changes the element of the secondary matrix from 0
    to 9. *)
Lemma size_similarly_view_aliases :
  exists r m w1,
    size_similarly matrix_1x1 matrix_1x2 three_matrices = (Ok (r, m), w1) /\
    peek (heap w1) matrix_1x2 [0; 0] = Some 0%Z /\
    peek (heap (numpy.setitem_scalar r [0; 0] 9 w1).2) matrix_1x2 [0; 0]
    = Some 9%Z.
Proof. eexists _, _, _. split; [|split]; reflexivity. Qed.

(** ** Computations that keep the buffers that are there *)

Section Keeps.

Variable h0 : list (list Z).

Lemma keeps_ret {A} (a : A) (Q : A -> Prop) : Q a -> keeps h0 (ret a) Q.
Proof. intros HQ w Hw. split; [done|]. by intros ? [= <-]. Qed.

Lemma keeps_ret_True {A} (a : A) : keeps h0 (ret a) (fun _ => True).
Proof. by apply keeps_ret. Qed.

Lemma keeps_raise {A} e (Q : A -> Prop) : keeps h0 (raise e) Q.
Proof. intros w Hw. by split. Qed.

Lemma keeps_bind {A B} (m : M A) (k : A -> M B) P Q :
  keeps h0 m P -> (forall a, P a -> keeps h0 (k a) Q) ->
  keeps h0 (bind m k) Q.
Proof.
  intros Hm Hk w Hw. destruct (Hm w Hw) as [Hp HP]. unfold bind.
  destruct (m w) as [[a|e] w']; simpl in *; [|by split].
  by apply Hk; [apply HP|].
Qed.

Lemma keeps_mono {A} (m : M A) (P Q : A -> Prop) :
  keeps h0 m P -> (forall a, P a -> Q a) -> keeps h0 m Q.
Proof.
  intros Hm HPQ w Hw. destruct (Hm w Hw) as [Hp HP]. split; [done|].
  intros a Ha. by apply HPQ, HP.
Qed.

Lemma keeps_get_heap : keeps h0 get_heap (fun h => h0 `prefix_of` h).
Proof. intros w Hw. split; [done|]. by intros ? [= <-]. Qed.

Lemma keeps_put_heap h :
  h0 `prefix_of` h -> keeps h0 (put_heap h) (fun _ => True).
Proof. intros Hh w Hw. by split. Qed.

Lemma keeps_get_rng : keeps h0 get_rng (fun _ => True).
Proof. intros w Hw. by split. Qed.

Lemma keeps_put_rng s : keeps h0 (put_rng s) (fun _ => True).
Proof. intros w Hw. by split. Qed.

Lemma keeps_expect {A} (o : option A) : keeps h0 (expect o) (fun _ => True).
Proof. destruct o; [by apply keeps_ret|apply keeps_raise]. Qed.

Lemma keeps_for_each {A} (xs : list A) (body : A -> M unit) :
  (forall x, keeps h0 (body x) (fun _ => True)) ->
  keeps h0 (for_each xs body) (fun _ => True).
Proof.
  intros Hb. induction xs as [|x xs IH]; simpl; [by apply keeps_ret|].
  eapply keeps_bind; [apply Hb|]. by intros _ _.
Qed.

Lemma keeps_map_M {A B} (f : A -> M B) (xs : list A) :
  (forall x, keeps h0 (f x) (fun _ => True)) ->
  keeps h0 (map_M f xs) (fun _ => True).
Proof.
  intros Hf. induction xs as [|x xs IH]; simpl; [by apply keeps_ret|].
  eapply keeps_bind; [apply Hf|]. intros y _.
  eapply keeps_bind; [apply IH|]. intros ys _. by apply keeps_ret.
Qed.

(** Reading. *)

Lemma keeps_flat a : keeps h0 (numpy.flat a) (fun _ => True).
Proof.
  eapply keeps_bind; [apply keeps_get_heap|]. intros h _.
  apply keeps_expect.
Qed.

Lemma keeps_getitem a idx : keeps h0 (numpy.getitem a idx) (fun _ => True).
Proof.
  unfold numpy.getitem. destruct (in_bounds _ _); [|apply keeps_raise].
  eapply keeps_bind; [apply keeps_get_heap|]. intros h _.
  apply keeps_expect.
Qed.

Lemma keeps_max a : keeps h0 (numpy.max a) (fun _ => True).
Proof.
  eapply keeps_bind; [apply keeps_flat|]. intros [|v vs] _;
    [apply keeps_raise|by apply keeps_ret].
Qed.

(** Views stay on the buffer of the array they are taken from. *)

Lemma keeps_getslice a stops :
  keeps h0 (numpy.getslice a stops) (fun r => base r = base a).
Proof.
  unfold numpy.getslice. destruct (numpy.slice_shape _ _);
    [by apply keeps_ret|apply keeps_raise].
Qed.

Lemma keeps_getrow a i :
  keeps h0 (numpy.getrow a i) (fun r => base r = base a).
Proof.
  unfold numpy.getrow. repeat case_match;
    first [by apply keeps_ret|apply keeps_raise].
Qed.

Lemma keeps_getslice_from a start :
  keeps h0 (numpy.getslice_from a start) (fun r => base r = base a).
Proof.
  unfold numpy.getslice_from. repeat case_match;
    first [by apply keeps_ret|apply keeps_raise].
Qed.

Lemma keeps_iter a : keeps h0 (numpy.iter a) (fun _ => True).
Proof.
  unfold numpy.iter. destruct (shape a); [apply keeps_raise|].
  apply keeps_map_M. intros i.
  eapply keeps_mono; [apply keeps_getrow|done].
Qed.

(** Allocation gives new arrays. *)

Lemma keeps_alloc buf :
  keeps h0 (numpy.alloc buf) (fun b => length h0 <= b).
Proof.
  eapply keeps_bind; [apply keeps_get_heap|]. intros h Hh.
  eapply keeps_bind; [apply keeps_put_heap; by apply prefix_app_r|].
  intros _ _. apply keeps_ret. by apply prefix_length.
Qed.

Lemma keeps_array shp t vs : keeps h0 (numpy.array shp t vs) (newer h0).
Proof.
  eapply keeps_bind; [apply keeps_alloc|]. intros b Hb. by apply keeps_ret.
Qed.

Lemma keeps_full shp t v : keeps h0 (numpy.full shp t v) (newer h0).
Proof.
  eapply keeps_bind; [apply keeps_alloc|]. intros b Hb. by apply keeps_ret.
Qed.

Lemma keeps_arange n : keeps h0 (numpy.arange n) (newer h0).
Proof. apply keeps_array. Qed.

Lemma keeps_unique a : keeps h0 (numpy.unique a) (newer h0).
Proof.
  eapply keeps_bind; [apply keeps_flat|]. intros vs _. apply keeps_array.
Qed.

Lemma keeps_sub a c : keeps h0 (numpy.sub a c) (newer h0).
Proof.
  eapply keeps_bind; [apply keeps_flat|]. intros vs _. apply keeps_array.
Qed.

Lemma keeps_normal_index n i :
  keeps h0 (numpy.normal_index n i) (fun _ => True).
Proof.
  unfold numpy.normal_index.
  repeat case_match; first [by apply keeps_ret|apply keeps_raise].
Qed.

Lemma keeps_getitem_array a ix :
  keeps h0 (numpy.getitem_array a ix) (newer h0).
Proof.
  unfold numpy.getitem_array. destruct (shape a); [apply keeps_raise|].
  eapply keeps_bind; [apply keeps_flat|]. intros ks _.
  eapply keeps_bind; [|intros rows _; apply keeps_array].
  apply keeps_map_M. intros i.
  eapply keeps_bind; [apply keeps_normal_index|]. intros k _.
  eapply keeps_bind; [apply keeps_getrow|]. intros r _. apply keeps_flat.
Qed.

(** Writing through a new array. *)

Lemma prefix_insert_ge (h : list (list Z)) b x :
  h0 `prefix_of` h -> length h0 <= b -> h0 `prefix_of` <[b := x]> h.
Proof.
  intros [k ->] Hb.
  replace b with (length h0 + (b - length h0)) by lia.
  rewrite insert_app_r. by apply prefix_app_r.
Qed.

Lemma keeps_store dst vs :
  newer h0 dst -> keeps h0 (numpy.store dst vs) (fun _ => True).
Proof.
  intros Hd. unfold numpy.store.
  eapply keeps_bind; [apply keeps_get_heap|]. intros h Hh.
  eapply keeps_bind; [apply keeps_expect|]. intros buf _.
  destruct (forallb _ _); [|apply keeps_raise].
  apply keeps_put_heap. by apply prefix_insert_ge.
Qed.

Lemma keeps_setitem_with conv dst src :
  newer h0 dst -> keeps h0 (numpy.setitem_with conv dst src) (fun _ => True).
Proof.
  intros Hd. unfold numpy.setitem_with.
  destruct (numpy.bcast_ok _ _); [|apply keeps_raise].
  eapply keeps_bind; [apply keeps_get_heap|]. intros h Hh.
  eapply keeps_bind; [apply keeps_expect|]. intros vs _.
  by apply keeps_store.
Qed.

End Keeps.

(** ** [overlay_labels] leaves its arguments alone *)

Section OverlayFrame.

Variable known_cmap : string -> bool.
Variable to_rgba :
  string -> ndarray -> list (list Z) -> outcome ndarray * list (list Z).
Variable label2rgb :
  ndarray -> Z -> ndarray -> ndarray ->
  list (list Z) -> outcome ndarray * list (list Z).
Variable seed_state : Z -> Z.
Variable shuffle_order : Z -> nat -> list nat * Z.
Variable float_conv : dtype -> dtype -> Z -> Z.

(** What is assumed of the collaborators: they do not change the arrays
    that are there (they may add arrays), and [to_rgba] returns a new
    array. *)
Hypothesis to_rgba_allocates :
  forall cmap x h, h `prefix_of` (to_rgba cmap x h).2.
Hypothesis to_rgba_new :
  forall cmap x h a, (to_rgba cmap x h).1 = Ok a -> length h <= base a.
Hypothesis label2rgb_allocates :
  forall l o c i h, h `prefix_of` (label2rgb l o c i h).2.

Section Buffers.

Variable h0 : list (list Z).

Lemma keeps_call {A} (f : list (list Z) -> outcome A * list (list Z))
    (Q : A -> Prop) :
  (forall h, h `prefix_of` (f h).2) ->
  (forall h a, h0 `prefix_of` h -> (f h).1 = Ok a -> Q a) ->
  keeps h0 (call f) Q.
Proof.
  intros Hf HQ. unfold call.
  eapply keeps_bind; [apply keeps_get_heap|]. intros h Hh.
  eapply keeps_bind; [apply keeps_put_heap; by etrans|]. intros _ _.
  destruct (f h).1 as [a|e] eqn:Ha; [|apply keeps_raise].
  apply keeps_ret. by eapply HQ.
Qed.

Lemma keeps_random_seed s :
  keeps h0 (random_seed seed_state s) (fun _ => True).
Proof.
  unfold random_seed. destruct (_ && _); [apply keeps_put_rng|apply keeps_raise].
Qed.

Lemma keeps_random_shuffle a :
  newer h0 a -> keeps h0 (random_shuffle shuffle_order a) (fun _ => True).
Proof.
  intros Ha. unfold random_shuffle. destruct (shape a); [apply keeps_raise|].
  eapply keeps_bind; [apply keeps_get_rng|]. intros s _.
  eapply keeps_bind; [apply keeps_put_rng|]. intros _ _.
  eapply keeps_bind.
  { apply keeps_map_M. intros i.
    eapply keeps_bind; [apply keeps_getrow|]. intros r _. apply keeps_flat. }
  intros rows _. apply keeps_for_each. intros ij.
  eapply keeps_bind; [apply keeps_getrow|]. intros r Hr.
  destruct (rows !! ij.2); [|by apply keeps_ret].
  apply keeps_store. unfold newer in *. by rewrite Hr.
Qed.

Lemma keeps_colors labels max_label seed :
  keeps h0
    (_colors known_cmap to_rgba seed_state shuffle_order labels max_label seed)
    (newer h0).
Proof.
  unfold _colors.
  eapply keeps_bind.
  { intros w Hw. split; [done|]. intros a _. exact I. }
  intros name _.
  eapply keeps_bind.
  { unfold get_cmap. destruct (known_cmap name);
      [apply keeps_ret_True|apply keeps_raise]. }
  intros cmap _.
  eapply keeps_bind.
  { destruct max_label; [apply keeps_ret_True|apply keeps_max]. }
  intros n _.
  eapply keeps_bind; [apply keeps_arange|]. intros xs _.
  eapply keeps_bind.
  { apply (keeps_call _ (newer h0)); [apply to_rgba_allocates|].
    intros h a Hh Ha%to_rgba_new. unfold newer.
    apply prefix_length in Hh. lia. }
  intros rgba Hrgba.
  eapply keeps_bind; [apply keeps_getslice|]. intros colors Hc.
  assert (newer h0 colors) as Hnew by (unfold newer in *; by rewrite Hc).
  eapply keeps_bind.
  { destruct seed; [apply keeps_random_seed|apply keeps_ret_True]. }
  intros _ _.
  eapply keeps_bind; [by apply keeps_random_shuffle|]. intros _ _.
  by apply keeps_ret.
Qed.

Lemma keeps_overlay_labels pixel_data labels opacity max_label seed :
  keeps h0
    (overlay_labels known_cmap to_rgba label2rgb seed_state shuffle_order
       float_conv pixel_data labels opacity max_label seed)
    (fun _ => True).
Proof.
  unfold overlay_labels.
  eapply keeps_bind; [apply keeps_colors|]. intros colors Hc.
  destruct (ndim labels =? 3).
  - eapply keeps_bind; [apply keeps_full|]. intros overlay Ho.
    eapply keeps_bind; [apply keeps_iter|]. intros planes _.
    eapply keeps_bind; [|by intros; apply keeps_ret].
    apply keeps_for_each. intros ip.
    eapply keeps_bind; [apply keeps_getrow|]. intros labels_index _.
    eapply keeps_bind; [apply keeps_unique|]. intros unique_labels _.
    eapply keeps_bind; [apply keeps_getitem|]. intros first _.
    eapply (keeps_bind _ _ _ (fun _ => True)).
    { destruct (first =? 0)%Z.
      - eapply keeps_mono; [apply keeps_getslice_from|done].
      - apply keeps_ret_True. }
    intros unique_labels' _.
    eapply keeps_bind; [apply keeps_getrow|]. intros labels_index' _.
    eapply keeps_bind; [apply keeps_sub|]. intros ix _.
    eapply keeps_bind; [apply keeps_getitem_array|]. intros plane_colors _.
    eapply keeps_bind.
    { apply (keeps_call _ (fun _ => True)); [apply label2rgb_allocates|done]. }
    intros rgb _.
    eapply keeps_bind; [apply keeps_getrow|]. intros dst Hd.
    apply keeps_setitem_with. unfold newer in *. by rewrite Hd.
  - apply keeps_call; [apply label2rgb_allocates|done].
Qed.

End Buffers.

(** C8: [overlay_labels] never mutates the label matrix it is given:
    whatever the pixel array, the opacity, [max_label] and the seed are,
    and whether the call returns or raises, every element of the label
    matrix is afterwards what it was before.  The collaborators
    ([to_rgba], [label2rgb]) are taken not to write to arrays that
    exist, as their documentation says. *)
Theorem overlay_labels_keeps_labels
    pixel_data labels opacity max_label seed w :
  valid w labels = true ->
  forall idx,
    peek (heap (overlay_labels known_cmap to_rgba label2rgb seed_state
                  shuffle_order float_conv pixel_data labels opacity
                  max_label seed w).2) labels idx
    = peek (heap w) labels idx.
Proof.
  intros Hv idx.
  apply peek_prefix; [|by apply valid_base].
  by apply (keeps_overlay_labels (heap w) pixel_data labels opacity
              max_label seed).
Qed.

End OverlayFrame.

(** ** Computations that do not look at the random number generator *)

Lemma agree_refl w : agree w w.
Proof. by split. Qed.

Lemma oblivious_ret {A} (a : A) : oblivious (ret a).
Proof. by intros w1 w2 Hw. Qed.

Lemma oblivious_raise {A} e : oblivious (@raise A e).
Proof. by intros w1 w2 Hw. Qed.

Lemma oblivious_bind {A B} (m : M A) (k : A -> M B) :
  oblivious m -> (forall a, oblivious (k a)) -> oblivious (bind m k).
Proof.
  intros Hm Hk w1 w2 Hw. destruct (Hm w1 w2 Hw) as [H1 H2]. unfold bind.
  destruct (m w1) as [[a1|e1] w1'], (m w2) as [[a2|e2] w2'];
    simpl in *; simplify_eq; [by apply Hk|done].
Qed.

Lemma oblivious_get_heap : oblivious get_heap.
Proof. intros w1 w2 [Hh Hc]. simpl. by rewrite Hh. Qed.

Lemma oblivious_put_heap h : oblivious (put_heap h).
Proof. intros w1 w2 [Hh Hc]. by repeat split. Qed.

Lemma oblivious_expect {A} (o : option A) : oblivious (expect o).
Proof. destruct o; [apply oblivious_ret|apply oblivious_raise]. Qed.

Lemma oblivious_for_each {A} (xs : list A) (body : A -> M unit) :
  (forall x, oblivious (body x)) -> oblivious (for_each xs body).
Proof.
  intros Hb. induction xs as [|x xs IH]; simpl; [apply oblivious_ret|].
  by apply oblivious_bind.
Qed.

Lemma oblivious_map_M {A B} (f : A -> M B) (xs : list A) :
  (forall x, oblivious (f x)) -> oblivious (map_M f xs).
Proof.
  intros Hf. induction xs as [|x xs IH]; simpl; [apply oblivious_ret|].
  apply oblivious_bind; [done|]. intros y.
  apply oblivious_bind; [done|]. intros ys. apply oblivious_ret.
Qed.

Lemma oblivious_get_default_colormap : oblivious get_default_colormap.
Proof. intros w1 w2 [Hh Hc]. unfold get_default_colormap. simpl. by rewrite Hc. Qed.

Ltac oblivious_step :=
  first
    [ apply oblivious_ret
    | apply oblivious_raise
    | apply oblivious_get_heap
    | apply oblivious_put_heap
    | apply oblivious_expect
    | apply oblivious_get_default_colormap
    | apply oblivious_bind; [|intros ?]
    | apply oblivious_for_each; intros ?
    | apply oblivious_map_M; intros ?
    | match goal with
      | |- oblivious (match ?x with _ => _ end) => destruct x
      end
    | progress unfold
        numpy.flat, numpy.getitem, numpy.getslice, numpy.getrow,
        numpy.getslice_from, numpy.iter, numpy.alloc, numpy.full,
        numpy.zeros, numpy.array, numpy.arange, numpy.max, numpy.unique,
        numpy.sub, numpy.normal_index, numpy.getitem_array, numpy.store,
        numpy.setitem_with, call, get_cmap ].

Ltac oblivious := repeat (oblivious_step; cbv beta).

Section OverlaySeed.

Variable known_cmap : string -> bool.
Variable to_rgba :
  string -> ndarray -> list (list Z) -> outcome ndarray * list (list Z).
Variable label2rgb :
  ndarray -> Z -> ndarray -> ndarray ->
  list (list Z) -> outcome ndarray * list (list Z).
Variable seed_state : Z -> Z.
Variable shuffle_order : Z -> nat -> list nat * Z.
Variable float_conv : dtype -> dtype -> Z -> Z.

(** After seeding, the rest runs in the same world whatever the state of
    the generator was before. *)
Lemma oblivious_seeded {B} s (k : unit -> M B) :
  oblivious (bind (random_seed seed_state s) k).
Proof.
  intros w1 w2 [Hh Hc]. unfold bind, random_seed.
  destruct (_ && _); [|by repeat split].
  unfold put_rng, set_rng. rewrite Hh, Hc. split; [done|apply agree_refl].
Qed.

Lemma oblivious_colors labels max_label s :
  oblivious
    (_colors known_cmap to_rgba seed_state shuffle_order labels max_label
       (Some s)).
Proof.
  unfold _colors.
  do 6 (apply oblivious_bind; [oblivious|intros ?]).
  apply oblivious_seeded.
Qed.

Lemma oblivious_overlay_labels pixel_data labels opacity max_label s :
  oblivious
    (overlay_labels known_cmap to_rgba label2rgb seed_state shuffle_order
       float_conv pixel_data labels opacity max_label (Some s)).
Proof.
  unfold overlay_labels.
  apply oblivious_bind; [apply oblivious_colors|intros colors].
  oblivious.
Qed.

End OverlaySeed.

(** C10: with a seed, the result of [overlay_labels] does not depend on
    the state the random number generator is in: two calls with the same
    arguments, started in worlds that differ at most in that state, come
    to the same outcome and leave the same arrays, so the arrays they
    return have the same elements.  Without a seed the result depends on
    that state: there are collaborators, arguments and two such worlds
    for which the returned arrays differ. *)
Theorem overlay_labels_seed_determinism :
  (forall known_cmap to_rgba label2rgb seed_state shuffle_order float_conv
          pixel_data labels opacity max_label s w1 w2,
     agree w1 w2 ->
     let run :=
       overlay_labels known_cmap to_rgba label2rgb seed_state shuffle_order
         float_conv pixel_data labels opacity max_label (Some s) in
     (run w1).1 = (run w2).1 /\
     heap (run w1).2 = heap (run w2).2 /\
     returned_elements (run w1) = returned_elements (run w2)) /\
  (exists known_cmap to_rgba label2rgb seed_state shuffle_order float_conv
          pixel_data labels opacity max_label w1 w2,
     agree w1 w2 /\
     let run :=
       overlay_labels known_cmap to_rgba label2rgb seed_state shuffle_order
         float_conv pixel_data labels opacity max_label None in
     returned_elements (run w1) <> returned_elements (run w2)).
Proof.
  split.
  - intros known_cmap to_rgba label2rgb seed_state shuffle_order float_conv
      pixel_data labels opacity max_label s w1 w2 Hw run.
    destruct (oblivious_overlay_labels known_cmap to_rgba label2rgb seed_state
                shuffle_order float_conv pixel_data labels opacity max_label s
                w1 w2 Hw) as [H1 [H2 _]].
    fold run in H1, H2. split; [done|]. split; [done|].
    unfold returned_elements. by rewrite H1, H2.
  - exists any_cmap, ramp, paint, seed_is_state, rotation, same_bits,
      scene_pixels, scene_labels, 0%Z, None, scene, scene_later.
    split; [done|]. vm_compute. intros [=].
Qed.

(** Two calls in a row: with a seed the second returns what the first
    returned, without a seed it does not. *)
Lemma overlay_labels_twice :
  (twice (Some 5%Z)).1 = (twice (Some 5%Z)).2 /\
  (twice None).1 <> (twice None).2.
Proof. split; [vm_compute; reflexivity|vm_compute; intros [=]]. Qed.

(** ** The stand-ins honour what is assumed of the collaborators *)

Lemma ramp_allocates cmap x h : h `prefix_of` (ramp cmap x h).2.
Proof.
  unfold ramp. destruct (elements h x); simpl; [by apply prefix_app_r|done].
Qed.

Lemma ramp_new cmap x h a : (ramp cmap x h).1 = Ok a -> length h <= base a.
Proof.
  unfold ramp. destruct (elements h x); simpl; [|done].
  by intros [= <-].
Qed.

Lemma paint_allocates l o c i h : h `prefix_of` (paint l o c i h).2.
Proof.
  unfold paint. repeat case_match; simpl; try done. by apply prefix_app_r.
Qed.

Lemma is_maximum_singleton v : is_maximum v [v].
Proof.
  split; [by left|]. intros x Hx. apply list_elem_of_singleton in Hx. lia.
Qed.

(** ** Instances *)

Lemma downsample_labels_width_witness :
  (exists r w', downsample_labels cell (single 127) = (Ok r, w') /\
                arr_dtype r = int8) /\
  (exists r w', downsample_labels cell (single 128) = (Ok r, w') /\
                arr_dtype r = int16) /\
  (exists r w', downsample_labels cell (single 32767) = (Ok r, w') /\
                arr_dtype r = int16) /\
  (exists r w', downsample_labels cell (single 32768) = (Ok r, w') /\
                arr_dtype r = int32).
Proof.
  repeat split.
  - destruct (downsample_labels_width (single 127) cell [127%Z] 127
                eq_refl eq_refl (is_maximum_singleton _))
      as (r & w' & E & Ht & _).
    by exists r, w'.
  - destruct (downsample_labels_width (single 128) cell [128%Z] 128
                eq_refl eq_refl (is_maximum_singleton _))
      as (r & w' & E & Ht & _).
    by exists r, w'.
  - destruct (downsample_labels_width (single 32767) cell [32767%Z] 32767
                eq_refl eq_refl (is_maximum_singleton _))
      as (r & w' & E & Ht & _).
    by exists r, w'.
  - destruct (downsample_labels_width (single 32768) cell [32768%Z] 32768
                eq_refl eq_refl (is_maximum_singleton _))
      as (r & w' & E & Ht & _).
    by exists r, w'.
Defined.

Lemma downsample_labels_preserves_witness :
  label_matrix (single 300) cell = true /\
  exists r w',
    downsample_labels cell (single 300) = (Ok r, w') /\
    peek (heap w') r [0; 0] = Some 300%Z.
Proof.
  split; [reflexivity|].
  destruct (downsample_labels_preserves (single 300) cell [300%Z] 300
              eq_refl eq_refl (is_maximum_singleton _))
    as (r & w' & E & Hsame).
  { intros v Hv. apply list_elem_of_singleton in Hv. lia. }
  exists r, w'. split; [done|].
  injection E as <- <-.
  destruct Hsame as [_ Hsame]; [unfold fits_signed; simpl; lia|].
  by rewrite Hsame.
Defined.

Lemma downsample_labels_partial_witness :
  label_matrix (single 5) cell = true /\
  exists r w', downsample_labels cell (single 5) = (Ok r, w').
Proof.
  split; [reflexivity|].
  apply (downsample_labels_partial (single 5) cell eq_refl). simpl. lia.
Defined.

Lemma check_consistency_shapes_witness :
  present_labels three_matrices (Some matrix_1x1) = true /\
  present_labels three_matrices (Some matrix_1x2) = true /\
  (check_consistency None (Some matrix_1x1) (Some matrix_1x2)
     three_matrices).1 = Ok tt /\
  exists e,
    (check_consistency (Some matrix_1x1) (Some matrix_1x2) None
       three_matrices).1 = Raise e.
Proof.
  split; [reflexivity|]. split; [reflexivity|]. split.
  - apply (check_consistency_shapes three_matrices None (Some matrix_1x1)
             (Some matrix_1x2) eq_refl eq_refl eq_refl); try done.
    + apply nonneg_of_true; reflexivity.
    + apply nonneg_of_true; reflexivity.
    + by intros (a & [= <-] & Hn).
    + by intros (a & [= <-] & Hn).
  - apply (check_consistency_shapes three_matrices (Some matrix_1x1)
             (Some matrix_1x2) None eq_refl eq_refl eq_refl).
    left. by exists matrix_1x1, matrix_1x2.
Defined.

Lemma check_consistency_raises_witness :
  present_labels three_matrices (Some matrix_1x1) = true /\
  present_labels three_matrices (Some matrix_1x2) = true /\
  (check_consistency None None None three_matrices).1 = Ok tt.
Proof.
  split; [reflexivity|]. split; [reflexivity|].
  exact (proj1 (check_consistency_raises three_matrices (Some matrix_1x1)
                  (Some matrix_1x2) None eq_refl eq_refl eq_refl)).
Defined.

Lemma crop_labels_and_image_common_witness :
  croppable labels_2x2 rgb_2x2 /\
  exists l i,
    crop_labels_and_image labels_2x2 rgb_2x2 labels_and_rgb
    = (Ok (l, i), labels_and_rgb) /\
    shape l = [2; 2] /\ shape i = [2; 2; 3].
Proof.
  assert (croppable labels_2x2 rgb_2x2) as Hc by (left; split; [|right]; reflexivity).
  split; [exact Hc|].
  destruct (crop_labels_and_image_common labels_and_rgb labels_2x2 rgb_2x2 Hc)
    as (l & i & E & Hl & Hi & _).
  by exists l, i.
Defined.

Lemma size_similarly_copy_or_view_witness :
  valid three_matrices matrix_1x1 = true /\
  exists r m w1,
    size_similarly matrix_1x2 matrix_1x1 three_matrices = (Ok (r, m), w1) /\
    base r = length (heap three_matrices).
Proof.
  split; [reflexivity|].
  destruct (size_similarly_copy_or_view three_matrices matrix_1x2 matrix_1x1
              1 2 1 1 [] eq_refl eq_refl eq_refl)
    as (r & m & w1 & E & Hb & _); [by intros [=]|].
  by exists r, m, w1.
Defined.

Lemma overlay_labels_keeps_labels_witness :
  valid scene scene_labels = true /\
  forall idx,
    peek (heap (overlay_labels any_cmap ramp paint seed_is_state rotation
                  same_bits scene_pixels scene_labels 0 None None scene).2)
      scene_labels idx
    = peek (heap scene) scene_labels idx.
Proof.
  split; [reflexivity|].
  apply (overlay_labels_keeps_labels any_cmap ramp paint seed_is_state
           rotation same_bits ramp_allocates ramp_new paint_allocates).
  reflexivity.
Defined.

Lemma overlay_labels_seed_determinism_witness :
  agree scene scene_later /\
  returned_elements
    (overlay_labels any_cmap ramp paint seed_is_state rotation same_bits
       scene_pixels scene_labels 0 None (Some 5%Z) scene)
  = returned_elements
      (overlay_labels any_cmap ramp paint seed_is_state rotation same_bits
         scene_pixels scene_labels 0 None (Some 5%Z) scene_later).
Proof.
  assert (agree scene scene_later) as Ha by (split; reflexivity).
  split; [exact Ha|].
  apply (proj1 overlay_labels_seed_determinism any_cmap ramp paint
           seed_is_state rotation same_bits scene_pixels scene_labels 0%Z
           None 5%Z scene scene_later Ha).
Defined.

(** * Further properties of the functions *)

(** ** [downsample_labels] *)

Lemma elements_nonempty h a vs :
  elements h a = Some vs -> numel (shape a) <> 0 -> exists v vs', vs = v :: vs'.
Proof.
  intros Hvs%elements_length Hn. destruct vs as [|v vs']; [done|by eauto].
Qed.

Lemma max_list_is_maximum v vs : is_maximum (numpy.max_list v vs) (v :: vs).
Proof.
  split; [apply max_list_elem|].
  destruct (max_list_ge v vs) as [H1 H2].
  intros x [->|Hx]%elem_of_cons; [done|by apply H2].
Qed.

(** X1: [downsample_labels] always returns a new array, also when the
    matrix already has the selected type: the array it returns lies in a
    buffer that was not there before, no array that was there is changed,
    and a later write to the result does not reach the labels matrix. *)
Theorem downsample_labels_copies w labels :
  label_matrix w labels = true -> numel (shape labels) <> 0 ->
  exists r buf,
    downsample_labels labels w = (Ok r, set_heap (heap w ++ [buf]) w) /\
    base r = length (heap w) /\
    (forall a idx, valid w a = true ->
       peek (heap w ++ [buf]) a idx = peek (heap w) a idx) /\
    (forall idx v idx',
       peek (heap (numpy.setitem_scalar r idx v
                     (set_heap (heap w ++ [buf]) w)).2) labels idx'
       = peek (heap w) labels idx').
Proof.
  intros Hl Hn. pose proof (label_matrix_valid _ _ Hl) as Hv.
  destruct (valid_elements _ _ Hv) as [vs Hvs].
  destruct (elements_nonempty _ _ _ Hvs Hn) as (v & vs' & ->).
  rewrite (run_downsample_labels _ _ _ _ Hvs (max_list_is_maximum v vs')).
  rewrite (run_astype _ _ _ _ Hvs).
  eexists _, _. split; [reflexivity|]. split; [reflexivity|]. split.
  - intros a idx Ha. apply peek_alloc. by apply valid_base.
  - intros idx x idx'. apply peek_ext.
    pose proof (valid_base _ _ Hv).
    rewrite setitem_scalar_frame by (simpl; lia).
    simpl. by apply lookup_app_l.
Qed.

Lemma fit_fits t v :
  t = int8 \/ t = int16 \/ t = int32 ->
  numpy.fit t v = v <-> fits_signed (bits_of t) v.
Proof.
  intros Ht. split; [|by apply fit_small].
  unfold fits_signed.
  destruct Ht as [-> | [-> | ->]]; simpl; unfold numpy.wrap; intros Hv.
  - pose proof (Z.mod_pos_bound (v + 2 ^ (8 - 1)) (2 ^ 8)). lia.
  - pose proof (Z.mod_pos_bound (v + 2 ^ (16 - 1)) (2 ^ 16)). lia.
  - pose proof (Z.mod_pos_bound (v + 2 ^ (32 - 1)) (2 ^ 32)). lia.
Qed.

(** X2: [downsample_labels] looks at the maximum only.  When it changes
    the type of the matrix, an element comes through unchanged exactly
    when it lies in the range of the selected type; an element outside of
    it (a negative value below the range, or a maximum of 2^31 or more)
    wraps around. *)
Theorem downsample_labels_wraps w labels :
  label_matrix w labels = true -> numel (shape labels) <> 0 ->
  exists r w',
    downsample_labels labels w = (Ok r, w') /\
    (arr_dtype r <> arr_dtype labels ->
     forall idx v,
       in_bounds (shape labels) idx = true ->
       peek (heap w) labels idx = Some v ->
       (peek (heap w') r idx = Some v <->
        fits_signed (bits_of (arr_dtype r)) v)).
Proof.
  intros Hl Hn. pose proof (label_matrix_valid _ _ Hl) as Hv.
  destruct (valid_elements _ _ Hv) as [vs Hvs].
  destruct (elements_nonempty _ _ _ Hvs Hn) as (v0 & vs' & ->).
  rewrite (run_downsample_labels _ _ _ _ Hvs (max_list_is_maximum v0 vs')).
  rewrite (run_astype _ _ _ _ Hvs).
  eexists _, _. split; [reflexivity|]. cbn [arr_dtype heap set_heap].
  intros Hne idx v Hidx Hp.
  rewrite peek_fresh by done.
  rewrite (elements_peek _ _ _ _ Hvs Hidx) in Hp.
  rewrite list_lookup_fmap, Hp. cbn [fmap option_fmap option_map].
  unfold numpy.cast. rewrite decide_False by done.
  rewrite <- fit_fits by (repeat case_match; auto).
  split; [by intros [= ->]|by intros ->].
Qed.

(** X3: [downsample_labels] is idempotent on the matrices it is made for:
    when the entries are non-negative and below 2^31, applying it to its
    own result gives an array of the same type, the same shape and the
    same elements. *)
Theorem downsample_labels_idempotent w labels vs :
  label_matrix w labels = true -> numel (shape labels) <> 0 ->
  elements (heap w) labels = Some vs ->
  (forall v, v ∈ vs -> (0 <= v < 2 ^ 31)%Z) ->
  exists r w' r' w'',
    downsample_labels labels w = (Ok r, w') /\
    downsample_labels r w' = (Ok r', w'') /\
    arr_dtype r' = arr_dtype r /\ shape r' = shape r /\
    elements (heap w') r = Some vs /\ elements (heap w'') r' = Some vs.
Proof.
  intros Hl Hn Hvs Hrange.
  destruct (elements_nonempty _ _ _ Hvs Hn) as (v0 & vs' & ->).
  pose proof (max_list_is_maximum v0 vs') as Hm.
  set (m := numpy.max_list v0 vs') in *.
  set (t := if (m <? 128)%Z then int8
            else if (m <? 32768)%Z then int16 else int32).
  assert (forall s, numpy.cast s t <$> (v0 :: vs') = v0 :: vs') as Hcast.
  { intros s. rewrite <- (list_fmap_id (v0 :: vs')) at 2.
    apply list_fmap_ext. intros _ v Hv%list_elem_of_lookup_2.
    pose proof (Hrange _ Hv). destruct Hm as [Hm Hle].
    pose proof (Hle _ Hv). pose proof (Hrange _ Hm).
    apply cast_small; [subst t; repeat case_match; auto|].
    unfold fits_signed. subst t.
    repeat case_match; simpl; lia. }
  rewrite (run_downsample_labels _ _ _ _ Hvs Hm).
  rewrite (run_astype _ _ _ _ Hvs). fold t. rewrite Hcast.
  set (r := NDArray (length (heap w)) 0 (shape labels)
              (c_strides (shape labels)) t).
  set (w' := set_heap (heap w ++ [v0 :: vs']) w).
  assert (elements (heap w') r = Some (v0 :: vs')) as Hr.
  { apply elements_fresh. by eapply elements_length. }
  exists r, w'. eexists _, _. split; [reflexivity|].
  rewrite (run_downsample_labels _ _ _ _ Hr Hm).
  rewrite (run_astype _ _ _ _ Hr). fold t. rewrite Hcast.
  split; [reflexivity|]. split; [reflexivity|]. split; [reflexivity|].
  split; [done|].
  apply elements_fresh. by eapply elements_length.
Qed.

(** ** [check_consistency] *)

Lemma keeps_ge h0 a c : keeps h0 (numpy.ge a c) (newer h0).
Proof.
  eapply keeps_bind; [apply keeps_flat|]. intros vs _. apply keeps_array.
Qed.

Lemma keeps_all h0 a : keeps h0 (numpy.all a) (fun _ => True).
Proof.
  eapply keeps_bind; [apply keeps_flat|]. intros vs _. apply keeps_ret_True.
Qed.

Lemma keeps_assert h0 c msg : keeps h0 (assert c msg) (fun _ => True).
Proof. destruct c; [apply keeps_ret_True|apply keeps_raise]. Qed.

Lemma keeps_is_None_or_nonneg h0 m :
  keeps h0 (is_None_or_nonneg m) (fun _ => True).
Proof.
  destruct m as [a|]; [|apply keeps_ret_True].
  eapply keeps_bind; [apply keeps_ge|]. intros b _. apply keeps_all.
Qed.

Lemma keeps_check_consistency h0 s u r :
  keeps h0 (check_consistency s u r) (fun _ => True).
Proof.
  unfold check_consistency, assert_two_dimensions, assert_same_shape.
  repeat (eapply keeps_bind;
          [first [apply keeps_is_None_or_nonneg | apply keeps_assert
                 | repeat case_match;
                   first [apply keeps_assert | apply keeps_ret_True]]
          |intros ? _]).
  repeat case_match; first [apply keeps_assert | apply keeps_ret_True].
Qed.

(** X4: [check_consistency] only looks: whether it returns or raises, and
    whatever it is given, every array that was there before the call has
    the elements it had. *)
Theorem check_consistency_keeps_arrays w s u r a :
  valid w a = true ->
  forall idx,
    peek (heap (check_consistency s u r w).2) a idx = peek (heap w) a idx.
Proof.
  intros Hv idx. apply peek_prefix; [|by apply valid_base].
  by apply (keeps_check_consistency (heap w) s u r).
Qed.

Lemma has_negative_nonneg_of w m :
  present_valid w m = true -> has_negative w m -> nonneg_of w m = false.
Proof.
  intros Hv Hn. destruct (nonneg_of w m) eqn:E; [|done].
  by destruct (nonneg_of_true _ _ Hv E).
Qed.

(** X5: the order of the checks, for label matrices, which are valid
    arrays of an integer type.  A negative value in any of the matrices
    wins over everything else: the failure is the [AssertionError] without
    message, also when the dimensions or the shapes are wrong as well.
    Without negative values, a [segmented] that does not have two
    dimensions is reported before any other matrix and before any shape. *)
Theorem check_consistency_order w s u r :
  present_labels w s = true -> present_labels w u = true ->
  present_labels w r = true ->
  (has_negative w s \/ has_negative w u \/ has_negative w r ->
   (check_consistency s u r w).1 = Raise (AssertionError None)) /\
  (~ has_negative w s -> ~ has_negative w u -> ~ has_negative w r ->
   forall a, s = Some a -> ndim a <> 2 ->
     (check_consistency s u r w).1
     = Raise (AssertionError
                (Some (dimensions_message "Segmented" (ndim a))))).
Proof.
  intros Hs%present_labels_valid Hu%present_labels_valid
    Hr%present_labels_valid.
  rewrite (check_consistency_outcome _ _ _ _ Hs Hu Hr). split.
  - intros [H|[H|H]]; apply has_negative_nonneg_of in H; try done;
      rewrite H; by rewrite ?andb_false_r.
  - intros Ns Nu Nr a -> Ha.
    destruct (nonneg_of w (Some a)) eqn:Es;
      [|by apply nonneg_of_false in Es].
    destruct (nonneg_of w u) eqn:Eu; [|by apply nonneg_of_false in Eu].
    destruct (nonneg_of w r) eqn:Er; [|by apply nonneg_of_false in Er].
    cbn [andb].
    unfold dimension_and_shape_checks, assert_two_dimensions, assert.
    apply Nat.eqb_neq in Ha. rewrite Ha. by rewrite bind_raise_l.
Qed.

(** X6: what a call that returns guarantees when [segmented] is given:
    every matrix that is present has two dimensions, and all of them have
    the same shape, also [unedited_segmented] and
    [small_removed_segmented] among themselves. *)
Theorem check_consistency_accepts_uniform w s u r :
  present_valid w s = true -> present_valid w u = true ->
  present_valid w r = true ->
  (check_consistency s u r w).1 = Ok tt ->
  s <> None ->
  forall x y, Some x ∈ [s; u; r] -> Some y ∈ [s; u; r] ->
    ndim x = 2 /\ shape x = shape y.
Proof.
  intros Hs Hu Hr.
  rewrite (check_consistency_outcome _ _ _ _ Hs Hu Hr).
  destruct (nonneg_of w s && nonneg_of w u && nonneg_of w r); [|done].
  unfold dimension_and_shape_checks, assert_two_dimensions, assert_same_shape,
    assert.
  intros Hok Hsome x y. rewrite !elem_of_cons, !elem_of_nil.
  destruct s as [sa|]; [clear Hsome|done].
  revert Hok.
  destruct u as [ua|], r as [ra|]; run_asserts; violation_cases;
    try done; intros _ Hx Hy;
    destruct Hx as [Hx|[Hx|[Hx|[]]]]; simplify_eq;
    destruct Hy as [Hy|[Hy|[Hy|[]]]]; simplify_eq;
    split; congruence.
Qed.

(** ** [crop_labels_and_image] *)

Lemma crop_planar_run w labels image l0 l1 lrest i0 i1 irest :
  shape labels = l0 :: l1 :: lrest -> length lrest <> 1 ->
  shape image = i0 :: i1 :: irest ->
  crop_labels_and_image labels image w
  = (Ok (NDArray (base labels) (offset labels)
           (Nat.min l0 i0 :: Nat.min l1 i1 :: lrest)
           (strides labels) (arr_dtype labels),
         NDArray (base image) (offset image)
           (Nat.min l0 i0 :: Nat.min l1 i1 :: irest)
           (strides image) (arr_dtype image)), w).
Proof.
  intros El Hl Ei. unfold crop_labels_and_image, ndim. rewrite El, Ei.
  repeat (rewrite bind_tuple_get; cbn [lookup list_lookup]).
  change (length (l0 :: l1 :: lrest) =? 3) with (length lrest =? 1).
  apply Nat.eqb_neq in Hl. rewrite Hl.
  change (length (i0 :: i1 :: irest) =? 3) with (length irest =? 1).
  destruct irest as [|c [|c' irest]]; cbn [length Nat.eqb];
    rewrite bind_getslice, El;
    cbn [numpy.slice_shape fmap option_fmap option_map];
    rewrite bind_getslice, Ei;
    cbn [numpy.slice_shape fmap option_fmap option_map];
    by rewrite (Nat.min_l (Nat.min l0 i0) l0), (Nat.min_l (Nat.min l1 i1) l1),
      (Nat.min_l (Nat.min l0 i0) i0), (Nat.min_l (Nat.min l1 i1) i1) by lia.
Qed.

Lemma crop_volume_run w labels image l0 l1 l2 i0 i1 i2 irest :
  shape labels = [l0; l1; l2] -> shape image = i0 :: i1 :: i2 :: irest ->
  crop_labels_and_image labels image w
  = (Ok (NDArray (base labels) (offset labels)
           [Nat.min l0 i0; Nat.min l1 i1; Nat.min l2 i2]
           (strides labels) (arr_dtype labels),
         NDArray (base image) (offset image)
           (Nat.min l0 i0 :: Nat.min l1 i1 :: Nat.min l2 i2 :: irest)
           (strides image) (arr_dtype image)), w).
Proof.
  intros El Ei. unfold crop_labels_and_image, ndim. rewrite El, Ei.
  repeat (rewrite bind_tuple_get; cbn [lookup list_lookup]).
  cbn [length Nat.eqb].
  repeat (rewrite bind_tuple_get; cbn [lookup list_lookup]).
  destruct irest as [|c [|c' irest]]; cbn [length Nat.eqb];
    rewrite bind_getslice, El;
    cbn [numpy.slice_shape fmap option_fmap option_map];
    rewrite bind_getslice, Ei;
    cbn [numpy.slice_shape fmap option_fmap option_map];
    by rewrite (Nat.min_l (Nat.min l0 i0) l0), (Nat.min_l (Nat.min l1 i1) l1),
      (Nat.min_l (Nat.min l2 i2) l2),
      (Nat.min_l (Nat.min l0 i0) i0), (Nat.min_l (Nat.min l1 i1) i1),
      (Nat.min_l (Nat.min l2 i2) i2) by lia.
Qed.

(** X7: for a labels array whose number of axes is not three,
    [crop_labels_and_image] crops the first two axes only, whatever the
    number of axes of the image is: all further axes of the labels and of
    the image come back whole (so a labels array and an image with four
    axes each can come back with different third axes).  The results are
    views: they show the elements of the arguments. *)
Theorem crop_labels_and_image_first_two_axes
    w labels image l0 l1 lrest i0 i1 irest :
  shape labels = l0 :: l1 :: lrest -> length lrest <> 1 ->
  shape image = i0 :: i1 :: irest ->
  exists l i,
    crop_labels_and_image labels image w = (Ok (l, i), w) /\
    shape l = Nat.min l0 i0 :: Nat.min l1 i1 :: lrest /\
    shape i = Nat.min l0 i0 :: Nat.min l1 i1 :: irest /\
    (forall idx, peek (heap w) l idx = peek (heap w) labels idx) /\
    (forall idx, peek (heap w) i idx = peek (heap w) image idx).
Proof.
  intros El Hl Ei. eexists _, _.
  split; [by eapply crop_planar_run|]. by repeat split.
Qed.

(** X8: [crop_labels_and_image] needs two axes in both arguments, and
    three in the image when the labels have three: otherwise it raises an
    [IndexError] (a shape has no such entry). *)
Theorem crop_labels_and_image_too_few_axes w labels image :
  ndim labels < 2 \/ ndim image < 2 \/ (ndim labels = 3 /\ ndim image = 2) ->
  crop_labels_and_image labels image w = (Raise IndexError, w).
Proof.
  unfold crop_labels_and_image, ndim.
  destruct (shape labels) as [|l0 [|l1 [|l2 [|? ?]]]];
    destruct (shape image) as [|i0 [|i1 [|i2 ?]]];
    cbn [length]; intros H; try (exfalso; lia);
    repeat (rewrite bind_tuple_get; cbn [lookup list_lookup]);
    try reflexivity;
    cbn [Nat.eqb];
    by repeat (rewrite bind_tuple_get; cbn [lookup list_lookup]).
Qed.

Lemma croppable_shapes labels image :
  croppable labels image ->
  (exists l0 l1 i0 i1 irest,
     shape labels = [l0; l1] /\ shape image = i0 :: i1 :: irest) \/
  (exists l0 l1 l2 i0 i1 i2 irest,
     shape labels = [l0; l1; l2] /\ shape image = i0 :: i1 :: i2 :: irest).
Proof.
  unfold croppable, ndim.
  destruct (shape labels) as [|l0 [|l1 [|l2 [|? ?]]]];
    destruct (shape image) as [|i0 [|i1 [|i2 ?]]];
    cbn [length]; intros H; try (exfalso; lia);
    first [left; by eauto 10 | right; by eauto 10].
Qed.

(** X9: cropping is idempotent: cropping the cropped pair again returns
    that pair. *)
Theorem crop_labels_and_image_idempotent w labels image :
  croppable labels image ->
  exists l i,
    crop_labels_and_image labels image w = (Ok (l, i), w) /\
    crop_labels_and_image l i w = (Ok (l, i), w).
Proof.
  intros [(l0 & l1 & i0 & i1 & irest & El & Ei)
         |(l0 & l1 & l2 & i0 & i1 & i2 & irest & El & Ei)]%croppable_shapes.
  - eexists _, _. split; [by eapply (crop_planar_run _ _ _ _ _ []) |].
    erewrite (crop_planar_run _ _ _ _ _ []); [|reflexivity|done|reflexivity].
    by rewrite !Nat.min_id.
  - eexists _, _. split; [by eapply crop_volume_run|].
    erewrite crop_volume_run; [|reflexivity|reflexivity].
    by rewrite !Nat.min_id.
Qed.

Lemma write_through_view w a shp idx v :
  valid w a = true -> Forall2 le shp (shape a) ->
  in_bounds shp idx = true ->
  exists w2,
    numpy.setitem_scalar
      (NDArray (base a) (offset a) shp (strides a) (arr_dtype a)) idx v w
    = (Ok tt, w2) /\
    peek (heap w2) a idx = Some v.
Proof.
  intros Hv Hle Hidx.
  destruct (valid_inv _ _ Hv) as (_ & buf & Hbuf & Hlt).
  pose proof (in_bounds_mono _ _ _ Hle Hidx) as Hin.
  eexists. split.
  - by apply (run_setitem_scalar _ _ _ _ buf); [| |apply Hlt].
  - unfold peek. cbn [heap set_heap base].
    rewrite list_lookup_insert_eq by (by eapply lookup_lt_Some).
    cbn [mbind option_bind].
    apply list_lookup_insert_eq. by apply Hlt.
Qed.

(** X10: the arrays [crop_labels_and_image] returns are views, not copies:
    a write to an element of the cropped labels changes that element of
    the labels matrix, and a write to an element of the cropped image
    changes that element of the image. *)
Theorem crop_labels_and_image_aliases w labels image :
  croppable labels image ->
  valid w labels = true -> valid w image = true ->
  exists l i,
    crop_labels_and_image labels image w = (Ok (l, i), w) /\
    (forall idx v, in_bounds (shape l) idx = true ->
       exists w2, numpy.setitem_scalar l idx v w = (Ok tt, w2) /\
                  peek (heap w2) labels idx = Some v) /\
    (forall idx v, in_bounds (shape i) idx = true ->
       exists w2, numpy.setitem_scalar i idx v w = (Ok tt, w2) /\
                  peek (heap w2) image idx = Some v).
Proof.
  intros [(l0 & l1 & i0 & i1 & irest & El & Ei)
         |(l0 & l1 & l2 & i0 & i1 & i2 & irest & El & Ei)]%croppable_shapes
    Hl Hi.
  - eexists _, _. split; [by eapply (crop_planar_run _ _ _ _ _ [])|].
    split; intros idx v Hidx; apply write_through_view; try done.
    + rewrite El. repeat (constructor; [lia|]). constructor.
    + rewrite Ei. repeat (constructor; [lia|]). apply Forall2_le_refl.
  - eexists _, _. split; [by eapply crop_volume_run|].
    split; intros idx v Hidx; apply write_through_view; try done.
    + rewrite El. repeat (constructor; [lia|]). constructor.
    + rewrite Ei. repeat (constructor; [lia|]). apply Forall2_le_refl.
Qed.

(** ** [size_similarly] *)

Lemma keeps_tuple_get h0 t i : keeps h0 (tuple_get t i) (fun _ => True).
Proof.
  unfold tuple_get. destruct (t !! i); [apply keeps_ret_True|apply keeps_raise].
Qed.

Lemma keeps_covers h0 labels secondary :
  keeps h0 (covers labels secondary) (fun _ => True).
Proof.
  unfold covers.
  eapply keeps_bind; [apply keeps_tuple_get|]. intros l0 _.
  eapply keeps_bind; [apply keeps_tuple_get|]. intros s0 _.
  destruct (l0 <=? s0); [|apply keeps_ret_True].
  eapply keeps_bind; [apply keeps_tuple_get|]. intros l1 _.
  eapply keeps_bind; [apply keeps_tuple_get|]. intros s1 _.
  apply keeps_ret_True.
Qed.

Lemma keeps_fill h0 dst v :
  newer h0 dst -> keeps h0 (numpy.fill dst v) (fun _ => True).
Proof. intros Hd. unfold numpy.fill. by apply keeps_store. Qed.

Lemma keeps_size_similarly h0 labels secondary :
  keeps h0 (size_similarly labels secondary) (fun _ => True).
Proof.
  unfold size_similarly. case_bool_decide.
  { eapply keeps_bind; [apply keeps_full|]. intros mask _.
    apply keeps_ret_True. }
  eapply keeps_bind; [apply keeps_covers|]. intros c _. destruct c.
  - destruct (ndim secondary =? 2);
      (eapply keeps_bind; [apply keeps_tuple_get|]; intros l0 _;
       eapply keeps_bind; [apply keeps_tuple_get|]; intros l1 _;
       eapply keeps_bind; [apply keeps_getslice|]; intros cropped _;
       eapply keeps_bind; [apply keeps_full|]; intros mask _;
       apply keeps_ret_True).
  - eapply keeps_bind; [apply keeps_full|]. intros result Hres.
    do 4 (eapply keeps_bind; [apply keeps_tuple_get|]; intros ? _).
    eapply (keeps_bind _ _ _ (fun _ => True)).
    { destruct (ndim secondary =? 2);
        (eapply keeps_bind; [apply keeps_getslice|]; intros src _;
         eapply keeps_bind; [apply keeps_getslice|]; intros dst Hd;
         apply keeps_setitem_with; unfold newer in *; by rewrite Hd). }
    intros _ _.
    eapply keeps_bind; [apply keeps_full|]. intros mask Hm.
    eapply keeps_bind; [apply keeps_getslice|]. intros region Hr.
    eapply keeps_bind;
      [apply keeps_fill; unfold newer in *; by rewrite Hr|].
    intros _ _. apply keeps_ret_True.
Qed.

(** X11: [size_similarly] never writes to an array it is given, nor to
    any other array that exists: whatever the arguments are, and whether
    it returns or raises, every array that was there before the call has
    the elements it had. *)
Theorem size_similarly_keeps_arrays w labels secondary a :
  valid w a = true ->
  forall idx,
    peek (heap (size_similarly labels secondary w).2) a idx
    = peek (heap w) a idx.
Proof.
  intros Hv idx. apply peek_prefix; [|by apply valid_base].
  by apply (keeps_size_similarly (heap w) labels secondary).
Qed.

Lemma lookup_two_last {A} (h : list A) x y :
  (h ++ [x; y]) !! length h = Some x /\ (h ++ [x; y]) !! S (length h) = Some y.
Proof.
  split.
  - by rewrite lookup_app_r, Nat.sub_diag by lia.
  - rewrite lookup_app_r by lia.
    by replace (S (length h) - length h) with 1 by lia.
Qed.

(** X12: when the secondary array covers a labels matrix and is larger in
    some axis, [size_similarly] returns its upper left part: an array with
    the first two axes of the labels and the further axes of the secondary
    array, holding at every index the element the secondary array has
    there, with a mask of the shape of the labels that is true
    everywhere. *)
Theorem size_similarly_crops w labels secondary H W h w' rest :
  shape labels = [H; W] -> shape secondary = h :: w' :: rest ->
  valid w secondary = true ->
  [H; W] <> [h; w'] -> H <= h -> W <= w' ->
  exists r m w1,
    size_similarly labels secondary w = (Ok (r, m), w1) /\
    shape r = H :: W :: rest /\ shape m = [H; W] /\
    (forall idx, in_bounds (shape r) idx = true ->
       peek (heap w1) r idx = peek (heap w) secondary idx) /\
    (forall idx, in_bounds [H; W] idx = true ->
       peek (heap w1) m idx = Some 1%Z).
Proof.
  intros El Es Hv Hne HH HW. eexists _, _, _.
  split; [by eapply size_similarly_crop|].
  split; [done|]. split; [done|]. split.
  - intros idx _. cbn [heap set_heap].
    rewrite peek_view. apply peek_alloc. by apply valid_base.
  - intros idx Hidx. cbn [heap set_heap]. rewrite peek_fresh by done.
    apply lookup_replicate_2. by apply dot_c_strides_lt.
Qed.

(** X13: when the secondary array is smaller than a labels matrix in some
    axis, [size_similarly] returns a new array of the type of the
    secondary array, with the first two axes of the labels and the further
    axes of the secondary array: where both have an element it holds the
    element of the secondary array, elsewhere zero; the mask has the shape
    of the labels and is true exactly where the secondary array has an
    element. *)
Theorem size_similarly_pads w labels secondary H W h w' rest :
  shape labels = [H; W] -> shape secondary = h :: w' :: rest ->
  valid w secondary = true ->
  (H <=? h) && (W <=? w') = false ->
  exists r m w1,
    size_similarly labels secondary w = (Ok (r, m), w1) /\
    shape r = H :: W :: rest /\ arr_dtype r = arr_dtype secondary /\
    shape m = [H; W] /\
    (forall idx, in_bounds (shape r) idx = true ->
       peek (heap w1) r idx
       = if in_bounds (shape secondary) idx
         then peek (heap w) secondary idx else Some 0%Z) /\
    (forall idx, in_bounds [H; W] idx = true ->
       peek (heap w1) m idx
       = Some (if in_bounds [h; w'] idx then 1%Z else 0%Z)).
Proof.
  intros El Es Hv Hnot.
  destruct (size_similarly_pad _ _ _ _ _ _ _ _ El Es Hnot Hv)
    as (rbuf & mbuf & E & _ & _ & Hr & Hm).
  eexists _, _, _. split; [exact E|].
  split; [done|]. split; [done|]. split; [done|].
  destruct (lookup_two_last (heap w) rbuf mbuf) as [L1 L2].
  split.
  - intros idx Hidx. unfold peek, flat_index.
    cbn [heap set_heap base offset strides shape] in *.
    rewrite L1. cbn [mbind option_bind]. rewrite Nat.add_0_l, Hr by done.
    rewrite Es.
    assert (in_bounds (Nat.min h H :: Nat.min w' W :: rest) idx
            = in_bounds (h :: w' :: rest) idx) as ->; [|done].
    destruct idx as [|i [|j idx]];
      [cbn [in_bounds] in Hidx; rewrite ?andb_false_r in Hidx; done..|].
    cbn [in_bounds] in *.
    apply andb_true_iff in Hidx as [Hi [Hj _]%andb_true_iff].
    apply Nat.ltb_lt in Hi, Hj.
    destruct (Nat.ltb_spec i (Nat.min h H)), (Nat.ltb_spec i h),
      (Nat.ltb_spec j (Nat.min w' W)), (Nat.ltb_spec j w');
      try lia; reflexivity.
  - intros idx Hidx. unfold peek, flat_index.
    cbn [heap set_heap base offset strides shape] in *.
    rewrite L2. cbn [mbind option_bind]. rewrite Nat.add_0_l, Hm by done.
    do 2 f_equal.
    destruct idx as [|i [|j idx]];
      [cbn [in_bounds] in Hidx; rewrite ?andb_false_r in Hidx; done..|].
    cbn [in_bounds] in *.
    apply andb_true_iff in Hidx as [Hi [Hj _]%andb_true_iff].
    apply Nat.ltb_lt in Hi, Hj.
    destruct (Nat.ltb_spec i (Nat.min h H)), (Nat.ltb_spec i h),
      (Nat.ltb_spec j (Nat.min w' W)), (Nat.ltb_spec j w');
      try lia; reflexivity.
Qed.

(** X14: what the docstring promises, "either the mask is all ones or the
    result is a copy": for a labels matrix and a secondary array with at
    least two axes, [size_similarly] returns, and either the mask is true
    at every index or the result lies in a buffer that was not there
    before the call. *)
Theorem size_similarly_ones_or_copy w labels secondary H W h w' rest :
  shape labels = [H; W] -> shape secondary = h :: w' :: rest ->
  valid w secondary = true ->
  exists r m w1,
    size_similarly labels secondary w = (Ok (r, m), w1) /\
    ((forall idx, in_bounds (shape m) idx = true ->
        peek (heap w1) m idx = Some 1%Z) \/
     base r = length (heap w)).
Proof.
  intros El Es Hv.
  destruct (decide ([H; W] = [h; w'])) as [Heq|Hne].
  - eexists _, _, _. split.
    + apply size_similarly_same. by rewrite El, Es.
    + left. intros idx Hidx. cbn [heap set_heap shape] in *.
      rewrite peek_fresh by done.
      apply lookup_replicate_2. by apply dot_c_strides_lt.
  - destruct ((H <=? h) && (W <=? w')) eqn:Hc.
    + apply andb_true_iff in Hc as [HH%Nat.leb_le HW%Nat.leb_le].
      eexists _, _, _. split; [by eapply size_similarly_crop|].
      left. intros idx Hidx. cbn [heap set_heap shape] in *.
      rewrite peek_fresh by done.
      apply lookup_replicate_2. by apply dot_c_strides_lt.
    + destruct (size_similarly_pad _ _ _ _ _ _ _ _ El Es Hc Hv)
        as (rbuf & mbuf & E & _).
      eexists _, _, _. split; [exact E|]. by right.
Qed.

(** X15: [size_similarly] needs two axes in both arguments: when the
    first two axes do not agree and one of the arrays has fewer than two
    axes, it raises an [IndexError]. *)
Theorem size_similarly_too_few_axes w labels secondary :
  take 2 (shape labels) <> take 2 (shape secondary) ->
  ndim labels < 2 \/ ndim secondary < 2 ->
  (size_similarly labels secondary w).1 = Raise IndexError.
Proof.
  unfold size_similarly, covers, ndim. intros Hne Hn.
  rewrite bool_decide_eq_false_2 by done. clear Hne.
  destruct (shape labels) as [|l0 [|l1 lrest]];
    destruct (shape secondary) as [|s0 [|s1 srest]];
    cbn [length] in Hn; try (exfalso; lia); clear Hn;
    repeat first
      [ rewrite bind_assoc
      | rewrite bind_tuple_get; cbn [lookup list_lookup]
      | rewrite bind_ret_l
      | rewrite (bind_ok _ _ _ _ _ (run_zeros _ _ _))
      | match goal with
        | |- context [if ?c <=? ?d then _ else _] => destruct (c <=? d)
        end ];
    reflexivity.
Qed.

(** X16: resizing is idempotent: the array [size_similarly] returns has
    the first two axes of the labels, so a second call with it returns
    that very array, with a mask of its shape that is true everywhere. *)
Theorem size_similarly_idempotent w labels secondary H W h w' rest :
  shape labels = [H; W] -> shape secondary = h :: w' :: rest ->
  valid w secondary = true ->
  exists r m w1 m' w2,
    size_similarly labels secondary w = (Ok (r, m), w1) /\
    size_similarly labels r w1 = (Ok (r, m'), w2) /\
    shape m' = shape r /\
    (forall idx, in_bounds (shape r) idx = true ->
       peek (heap w2) m' idx = Some 1%Z).
Proof.
  intros El Es Hv.
  assert (exists r m w1,
            size_similarly labels secondary w = (Ok (r, m), w1) /\
            take 2 (shape r) = [H; W]) as (r & m & w1 & E & Hr).
  { destruct (decide ([H; W] = [h; w'])) as [Heq|Hne].
    - eexists _, _, _. split.
      + apply size_similarly_same. by rewrite El, Es.
      + rewrite Es. by injection Heq as -> ->.
    - destruct ((H <=? h) && (W <=? w')) eqn:Hc.
      + apply andb_true_iff in Hc as [HH%Nat.leb_le HW%Nat.leb_le].
        eexists _, _, _. split; [by eapply size_similarly_crop|done].
      + destruct (size_similarly_pad _ _ _ _ _ _ _ _ El Es Hc Hv)
          as (rbuf & mbuf & E & _).
        eexists _, _, _. split; [exact E|done]. }
  exists r, m, w1. eexists _, _. split; [exact E|]. split.
  - apply size_similarly_same. by rewrite El, Hr.
  - split; [done|]. intros idx Hidx. cbn [heap set_heap].
    rewrite peek_fresh by done.
    apply lookup_replicate_2. by apply dot_c_strides_lt.
Qed.

Lemma run_covers_axes labels secondary w H W lrest h w' rest :
  shape labels = H :: W :: lrest -> shape secondary = h :: w' :: rest ->
  covers labels secondary w = (Ok ((H <=? h) && (W <=? w')), w).
Proof.
  intros El Es. unfold covers. rewrite El, Es.
  repeat (rewrite bind_tuple_get; cbn [lookup list_lookup]).
  destruct (H <=? h); [|done].
  by repeat (rewrite bind_tuple_get; cbn [lookup list_lookup]).
Qed.

(** X17: padding does not work for volumes.  For labels with three axes
    and a secondary matrix with two that is smaller in some axis, the
    copy into the new array is an assignment of a (i, j) array to a
    (i, j, D) array, i and j being the minima of the first two axes:
    unless j is D or 1, and i is j or 1, [size_similarly] raises a
    [ValueError]. *)
Theorem size_similarly_volume_rejected w labels secondary H W D h w' :
  shape labels = [H; W; D] -> shape secondary = [h; w'] ->
  (H <=? h) && (W <=? w') = false ->
  let i := Nat.min h H in
  let j := Nat.min w' W in
  ~ ((j = D \/ j = 1) /\ (i = j \/ i = 1)) ->
  (size_similarly labels secondary w).1 = Raise ValueError.
Proof.
  intros El Es Hnot i j Hb. unfold size_similarly.
  rewrite bool_decide_eq_false_2.
  2:{ rewrite El, Es. intros [= -> ->]. by rewrite !Nat.leb_refl in Hnot. }
  rewrite (bind_ok _ _ _ _ _ (run_covers_axes _ _ _ _ _ _ _ _ _ El Es)).
  rewrite Hnot. unfold ndim. rewrite El, Es.
  rewrite (bind_ok _ _ _ _ _ (run_zeros _ _ _)).
  repeat (rewrite bind_tuple_get; cbn [lookup list_lookup]).
  cbn [length Nat.eqb app drop].
  rewrite bind_assoc, bind_getslice, Es.
  cbn [numpy.slice_shape fmap option_fmap option_map].
  rewrite bind_assoc, bind_getslice.
  cbn [shape numpy.slice_shape fmap option_fmap option_map].
  unfold numpy.setitem, numpy.setitem_with. cbn [shape].
  fold i j.
  rewrite (Nat.min_l i h), (Nat.min_l j w'), (Nat.min_l i H), (Nat.min_l j W)
    by (subst i j; lia).
  assert (numpy.bcast_ok (reverse [i; j]) (reverse [i; j; D]) = false) as ->.
  { change (((j =? D) || (j =? 1)) && (((i =? j) || (i =? 1)) && true)
            = false).
    destruct (Nat.eqb_spec j D), (Nat.eqb_spec j 1), (Nat.eqb_spec i j),
      (Nat.eqb_spec i 1); simpl; try reflexivity; exfalso; apply Hb; lia. }
  by rewrite bind_raise_l.
Qed.

(** ** [overlay_labels] and [_colors] *)

(** Inversion of a sequence that returns. *)
Lemma bind_Ok_inv {A B} (m : M A) (k : A -> M B) w b w' :
  bind m k w = (Ok b, w') ->
  exists a w1, m w = (Ok a, w1) /\ k a w1 = (Ok b, w').
Proof.
  unfold bind. destruct (m w) as [[a|e] w1]; [by eauto|done].
Qed.

Lemma quiet_ret {A} (a : A) : quiet (ret a).
Proof. by intros w. Qed.

Lemma quiet_raise {A} e : quiet (@raise A e).
Proof. by intros w. Qed.

Lemma quiet_bind {A B} (m : M A) (k : A -> M B) :
  quiet m -> (forall a, quiet (k a)) -> quiet (bind m k).
Proof.
  intros Hm Hk w. specialize (Hm w). unfold bind.
  destruct (m w) as [[a|e] w1]; simpl in *; [|done].
  by rewrite Hk.
Qed.

Lemma quiet_get_heap : quiet get_heap.
Proof. by intros w. Qed.

Lemma quiet_put_heap h : quiet (put_heap h).
Proof. by intros w. Qed.

Lemma quiet_expect {A} (o : option A) : quiet (expect o).
Proof. destruct o; [apply quiet_ret|apply quiet_raise]. Qed.

Lemma quiet_for_each {A} (xs : list A) (body : A -> M unit) :
  (forall x, quiet (body x)) -> quiet (for_each xs body).
Proof.
  intros Hb. induction xs as [|x xs IH]; simpl; [apply quiet_ret|].
  by apply quiet_bind.
Qed.

Lemma quiet_map_M {A B} (f : A -> M B) (xs : list A) :
  (forall x, quiet (f x)) -> quiet (map_M f xs).
Proof.
  intros Hf. induction xs as [|x xs IH]; simpl; [apply quiet_ret|].
  apply quiet_bind; [done|]. intros y.
  apply quiet_bind; [done|]. intros ys. apply quiet_ret.
Qed.

Lemma quiet_get_default_colormap : quiet get_default_colormap.
Proof. by intros w. Qed.

Lemma quiet_run {A} (m : M A) w r w' :
  quiet m -> m w = (r, w') -> rng w' = rng w.
Proof. intros Hm E. specialize (Hm w). by rewrite E in Hm. Qed.

Lemma run_quiet {A} (m : M A) w r w' :
  m w = (r, w') -> quiet m -> rng w' = rng w.
Proof. intros E Hm. by eapply quiet_run. Qed.

Ltac quiet_step :=
  first
    [ apply quiet_ret
    | apply quiet_raise
    | apply quiet_get_heap
    | apply quiet_put_heap
    | apply quiet_expect
    | apply quiet_get_default_colormap
    | apply quiet_bind; [|intros ?]
    | apply quiet_for_each; intros ?
    | apply quiet_map_M; intros ?
    | match goal with
      | |- quiet (match ?x with _ => _ end) => destruct x
      end
    | progress unfold
        numpy.flat, numpy.getitem, numpy.getslice, numpy.getrow,
        numpy.getslice_from, numpy.iter, numpy.alloc, numpy.full,
        numpy.zeros, numpy.array, numpy.arange, numpy.max, numpy.unique,
        numpy.sub, numpy.normal_index, numpy.getitem_array, numpy.store,
        numpy.setitem_with, call, get_cmap ].

Ltac quiet := repeat (quiet_step; cbv beta).

Lemma refuses_bind_l {A B} (m : M A) (k : A -> M B) :
  refuses m -> refuses (bind m k).
Proof.
  intros Hm w b. specialize (Hm w). unfold bind.
  destruct (m w) as [[a|e] w1]; simpl in *; [by destruct (Hm a)|done].
Qed.

Lemma refuses_bind_r {A B} (m : M A) (k : A -> M B) :
  (forall a, refuses (k a)) -> refuses (bind m k).
Proof.
  intros Hk w b. unfold bind.
  destruct (m w) as [[a|e] w1]; simpl in *; [apply Hk|done].
Qed.

Lemma map_M_length {A B} (f : A -> M B) xs w ys w' :
  map_M f xs w = (Ok ys, w') -> length ys = length xs.
Proof.
  revert w ys w'. induction xs as [|x xs IH]; intros w ys w'; simpl.
  - by intros [= <- _].
  - intros (y & w1 & _ & E)%bind_Ok_inv.
    apply bind_Ok_inv in E as (ys' & w2 & E & [= <- _]).
    simpl. f_equal. by eapply IH.
Qed.

Lemma for_each_Ok {A} (xs : list A) (body : A -> M unit) w w' x :
  for_each xs body w = (Ok tt, w') -> x ∈ xs ->
  exists w1 w2, body x w1 = (Ok tt, w2).
Proof.
  revert w. induction xs as [|y xs IH]; intros w; simpl.
  - intros _ Hx. by apply elem_of_nil in Hx.
  - intros ([] & w1 & E1 & E2)%bind_Ok_inv [->|Hx]%elem_of_cons.
    + by eauto.
    + by eapply IH.
Qed.

Lemma enumerate_elem {A} (xs : list A) k i x :
  xs !! i = Some x -> (k + i, x) ∈ enumerate k xs.
Proof.
  revert k i. induction xs as [|y xs IH]; intros k [|i]; simpl; try done.
  - intros [= ->]. rewrite Nat.add_0_r. apply elem_of_cons. by left.
  - intros Hx. apply elem_of_cons. right.
    replace (k + S i) with (S k + i) by lia. by apply IH.
Qed.

Section OverlayFurther.

Variable known_cmap : string -> bool.
Variable to_rgba :
  string -> ndarray -> list (list Z) -> outcome ndarray * list (list Z).
Variable label2rgb :
  ndarray -> Z -> ndarray -> ndarray ->
  list (list Z) -> outcome ndarray * list (list Z).
Variable seed_state : Z -> Z.
Variable shuffle_order : Z -> nat -> list nat * Z.
Variable float_conv : dtype -> dtype -> Z -> Z.

Hypothesis to_rgba_allocates :
  forall cmap x h, h `prefix_of` (to_rgba cmap x h).2.
Hypothesis to_rgba_new :
  forall cmap x h a, (to_rgba cmap x h).1 = Ok a -> length h <= base a.
Hypothesis label2rgb_allocates :
  forall l o c i h, h `prefix_of` (label2rgb l o c i h).2.

(** X18: [overlay_labels] only adds arrays: the buffers that were there
    before the call are all still there afterwards, so the pixel data,
    like every array that was valid before the call, has the elements
    it had, whether the call returns or raises.  The collaborators are
    taken not to write to arrays that exist. *)
Theorem overlay_labels_keeps_arrays
    pixel_data labels opacity max_label seed w :
  let w' := (overlay_labels known_cmap to_rgba label2rgb seed_state
               shuffle_order float_conv pixel_data labels opacity
               max_label seed w).2 in
  heap w `prefix_of` heap w' /\
  forall a, valid w a = true ->
    forall idx, peek (heap w') a idx = peek (heap w) a idx.
Proof.
  intros w'.
  assert (heap w `prefix_of` heap w') as Hp.
  { by apply (keeps_overlay_labels known_cmap to_rgba label2rgb seed_state
                shuffle_order float_conv to_rgba_allocates to_rgba_new
                label2rgb_allocates (heap w) pixel_data labels opacity
                max_label seed). }
  split; [done|]. intros a Hv idx.
  apply peek_prefix; [done|by apply valid_base].
Qed.

(** X19: a labels array without elements has no maximum: without
    [max_label], [overlay_labels] raises a [ValueError] for it, and
    leaves the world as it was. *)
Theorem overlay_labels_no_elements pixel_data labels opacity seed w :
  elements (heap w) labels = Some [] ->
  overlay_labels known_cmap to_rgba label2rgb seed_state shuffle_order
    float_conv pixel_data labels opacity None seed w
  = (Raise ValueError, w).
Proof.
  intros Hvs.
  unfold overlay_labels, _colors, get_default_colormap, get_cmap.
  unfold bind at 1 2 3. cbn [fst snd].
  destruct (known_cmap (default_colormap w)); [|done].
  unfold ret at 1. unfold bind at 1 2.
  by rewrite (run_max_empty _ _ Hvs).
Qed.

Lemma refuses_random_seed s :
  ~ (0 <= s < 2 ^ 32)%Z -> refuses (random_seed seed_state s).
Proof.
  intros Hs w a. unfold random_seed.
  destruct (Z.leb_spec 0 s), (Z.ltb_spec s (2 ^ 32)); simpl; try done.
  exfalso. apply Hs. lia.
Qed.

Lemma quiet_bad_seed s : ~ (0 <= s < 2 ^ 32)%Z -> quiet (random_seed seed_state s).
Proof.
  intros Hs w. unfold random_seed.
  destruct (Z.leb_spec 0 s), (Z.ltb_spec s (2 ^ 32)); simpl; try done.
  exfalso. apply Hs. lia.
Qed.

(** X20: a seed that is negative or not below 2^32 is not accepted:
    [overlay_labels] never returns with it, and it leaves the random
    number generator in the state it was in. *)
Theorem overlay_labels_seed_out_of_range
    pixel_data labels opacity max_label s w :
  ~ (0 <= s < 2 ^ 32)%Z ->
  let run := overlay_labels known_cmap to_rgba label2rgb seed_state
               shuffle_order float_conv pixel_data labels opacity
               max_label (Some s) in
  (forall r, (run w).1 <> Ok r) /\ rng (run w).2 = rng w.
Proof.
  intros Hs run. subst run. split.
  - revert w. apply refuses_bind_l. unfold _colors.
    do 6 (apply refuses_bind_r; intros ?).
    apply refuses_bind_l. by apply refuses_random_seed.
  - unfold overlay_labels, bind at 1.
    destruct (_colors _ _ _ _ _ _ _ w) as [[c|e] w1] eqn:E.
    + exfalso. revert E.
      assert (refuses (_colors known_cmap to_rgba seed_state shuffle_order
                         labels max_label (Some s))) as Hr.
      { unfold _colors. do 6 (apply refuses_bind_r; intros ?).
        apply refuses_bind_l. by apply refuses_random_seed. }
      intros E. apply (Hr w c). by rewrite E.
    + simpl. revert E. unfold _colors. intros E.
      assert (forall B (k : unit -> M B),
                quiet (bind (random_seed seed_state s) k)) as Hq.
      { intros B k w0. unfold bind.
        pose proof (refuses_random_seed s Hs w0) as Hr.
        pose proof (quiet_bad_seed s Hs w0) as Hq.
        destruct (random_seed seed_state s w0) as [[u|e'] w2]; simpl in *;
          [by destruct (Hr u)|done]. }
      apply (run_quiet _ _ _ _ E).
      do 6 (apply quiet_bind; [quiet|intros ?]).
      apply Hq.
Qed.

Lemma quiet_after_shuffle (a : ndarray) n (order : list nat) :
  quiet
    (let* rows := map_M (fun i => let* r := numpy.getrow a i in
                                  numpy.flat r) (seq 0 n) in
     for_each (zip (seq 0 n) order)
       (fun ij => let* r := numpy.getrow a ij.1 in
                  match rows !! ij.2 with
                  | Some vs => numpy.store r vs
                  | None => ret tt
                  end)).
Proof. quiet. Qed.

Lemma run_random_shuffle_rng a w w' :
  random_shuffle shuffle_order a w = (Ok tt, w') ->
  exists n rest, shape a = n :: rest /\
    rng w' = (shuffle_order (rng w) n).2.
Proof.
  unfold random_shuffle. destruct (shape a) as [|n rest]; [done|].
  intros E. exists n, rest. split; [done|].
  unfold bind at 1 2, get_rng, put_rng in E. cbn [fst snd] in E.
  by rewrite (quiet_run _ _ _ _ (quiet_after_shuffle a n _) E).
Qed.

(** X21: what [_colors] does to the random number generator.  When it
    returns, the colors have a first axis, of some length n, and the
    generator is in the state in which a shuffle of n items leaves it:
    started from the state of the seed if there is one, and from the
    state the generator was in otherwise. *)
Theorem colors_generator labels max_label seed w colors w' :
  _colors known_cmap to_rgba seed_state shuffle_order labels max_label seed w
  = (Ok colors, w') ->
  exists n rest,
    shape colors = n :: rest /\
    rng w' = (shuffle_order
                match seed with
                | Some s => seed_state s
                | None => rng w
                end n).2.
Proof.
  unfold _colors.
  intros (name & w1 & E1 & E)%bind_Ok_inv.
  apply bind_Ok_inv in E as (cmap & w2 & E2 & E).
  apply bind_Ok_inv in E as (n & w3 & E3 & E).
  apply bind_Ok_inv in E as (xs & w4 & E4 & E).
  apply bind_Ok_inv in E as (rgba & w5 & E5 & E).
  apply bind_Ok_inv in E as (colors' & w6 & E6 & E).
  apply bind_Ok_inv in E as ([] & w7 & E7 & E).
  apply bind_Ok_inv in E as ([] & w8 & E8 & [= <- <-]).
  destruct (run_random_shuffle_rng _ _ _ E8) as (k & rest & Hs & Hr).
  exists k, rest. split; [done|]. rewrite Hr. f_equal. f_equal.
  assert (rng w6 = rng w) as H6.
  { rewrite (run_quiet _ _ _ _ E6) by quiet.
    rewrite (run_quiet _ _ _ _ E5) by quiet.
    rewrite (run_quiet _ _ _ _ E4) by quiet.
    assert (rng w3 = rng w2) as ->.
    { destruct max_label; [by injection E3 as _ <-|].
      apply (run_quiet _ _ _ _ E3). quiet. }
    rewrite (run_quiet _ _ _ _ E2) by quiet.
    apply (run_quiet _ _ _ _ E1). quiet. }
  destruct seed as [s|].
  - revert E7. unfold random_seed. destruct (_ && _); [|done].
    by intros [= <-].
  - injection E7 as <-. done.
Qed.

(** X22: after [_colors], [overlay_labels] does not touch the random
    number generator: whether it returns or raises, it leaves the
    generator in the state in which [_colors] left it. *)
Theorem overlay_labels_generator pixel_data labels opacity max_label seed w :
  rng (overlay_labels known_cmap to_rgba label2rgb seed_state shuffle_order
         float_conv pixel_data labels opacity max_label seed w).2
  = rng (_colors known_cmap to_rgba seed_state shuffle_order labels
           max_label seed w).2.
Proof.
  unfold overlay_labels, bind at 1.
  destruct (_colors _ _ _ _ _ _ _ w) as [[colors|e] w1]; [|done].
  cbn [snd].
  match goal with
  | |- rng (?m w1).2 = rng w1 => assert (quiet m) as Hq; [|apply Hq]
  end.
  quiet.
Qed.

(** X23: for a volume of labels, the array [overlay_labels] returns has
    the shape of the labels with a last axis of length 3, the type
    [float32], and lies in a buffer that was not there before the
    call. *)
Theorem overlay_labels_volume_result
    pixel_data labels opacity max_label seed w r w' :
  ndim labels = 3 ->
  overlay_labels known_cmap to_rgba label2rgb seed_state shuffle_order
    float_conv pixel_data labels opacity max_label seed w = (Ok r, w') ->
  shape r = shape labels ++ [3] /\ arr_dtype r = float32 /\
  length (heap w) <= base r.
Proof.
  intros Hn. unfold overlay_labels. rewrite Hn. cbn [Nat.eqb].
  intros (colors & w1 & E1 & E)%bind_Ok_inv.
  rewrite (bind_ok _ _ _ _ _ (run_zeros _ _ _)) in E.
  apply bind_Ok_inv in E as (planes & w2 & _ & E).
  apply bind_Ok_inv in E as ([] & w3 & _ & [= <- _]).
  repeat split. cbn [base].
  pose proof (keeps_colors known_cmap to_rgba seed_state shuffle_order
                to_rgba_allocates to_rgba_new (heap w) labels max_label seed
                w (reflexivity _)) as [Hp _].
  rewrite E1 in Hp. by apply prefix_length in Hp.
Qed.

(** X24: the planes of the overlay are made by iterating over the pixel
    data, and the plane of labels with the same index is taken for each
    of them: with pixel data that has more planes than the volume of
    labels has, [overlay_labels] never returns. *)
Theorem overlay_labels_too_many_planes
    pixel_data labels opacity max_label seed w n lrest p prest :
  ndim labels = 3 ->
  shape labels = n :: lrest -> shape pixel_data = p :: prest ->
  n < p ->
  forall r,
    (overlay_labels known_cmap to_rgba label2rgb seed_state shuffle_order
       float_conv pixel_data labels opacity max_label seed w).1 <> Ok r.
Proof.
  intros Hn El Ep Hlt r Hr.
  destruct (overlay_labels _ _ _ _ _ _ _ _ _ _ _ w) as [o w'] eqn:E.
  simpl in Hr. subst o. revert E.
  unfold overlay_labels. rewrite Hn. cbn [Nat.eqb].
  intros (colors & w1 & E1 & E)%bind_Ok_inv.
  rewrite (bind_ok _ _ _ _ _ (run_zeros _ _ _)) in E.
  apply bind_Ok_inv in E as (planes & w2 & Ei & E).
  apply bind_Ok_inv in E as ([] & w3 & Ef & _).
  unfold numpy.iter in Ei. rewrite Ep in Ei.
  apply map_M_length in Ei. rewrite length_seq in Ei.
  destruct (lookup_lt_is_Some_2 planes n) as [plane Hplane]; [lia|].
  destruct (for_each_Ok _ _ _ _ (n, plane) Ef) as (wa & wb & Eb).
  { apply (enumerate_elem planes 0 n plane Hplane). }
  cbn [fst snd] in Eb.
  apply bind_Ok_inv in Eb as (li & wc & Eg & _).
  revert Eg. unfold numpy.getrow. rewrite El.
  destruct (strides labels); [done|].
  by rewrite Nat.ltb_irrefl.
Qed.

End OverlayFurther.

(** ** Instances of the further properties *)

Lemma downsample_labels_copies_witness :
  label_matrix (single 300) cell = true /\
  numel (shape cell) <> 0 /\
  exists r buf,
    downsample_labels cell (single 300)
    = (Ok r, set_heap (heap (single 300) ++ [buf]) (single 300)) /\
    base r = length (heap (single 300)) /\
    (forall a idx, valid (single 300) a = true ->
       peek (heap (single 300) ++ [buf]) a idx
       = peek (heap (single 300)) a idx) /\
    (forall idx v idx',
       peek (heap (numpy.setitem_scalar r idx v
                     (set_heap (heap (single 300) ++ [buf]) (single 300))).2)
         cell idx'
       = peek (heap (single 300)) cell idx').
Proof.
  assert (numel (shape cell) <> 0) as Hn by (simpl; lia).
  split; [reflexivity|]. split; [exact Hn|].
  exact (downsample_labels_copies (single 300) cell eq_refl Hn).
Defined.

Lemma downsample_labels_wraps_witness :
  label_matrix (single 300) cell = true /\
  numel (shape cell) <> 0 /\
  exists r w',
    downsample_labels cell (single 300) = (Ok r, w') /\
    (arr_dtype r <> arr_dtype cell ->
     forall idx v,
       in_bounds (shape cell) idx = true ->
       peek (heap (single 300)) cell idx = Some v ->
       (peek (heap w') r idx = Some v <->
        fits_signed (bits_of (arr_dtype r)) v)).
Proof.
  assert (numel (shape cell) <> 0) as Hn by (simpl; lia).
  split; [reflexivity|]. split; [exact Hn|].
  exact (downsample_labels_wraps (single 300) cell eq_refl Hn).
Defined.

Lemma downsample_labels_idempotent_witness :
  label_matrix (single 300) cell = true /\
  elements (heap (single 300)) cell = Some [300%Z] /\
  exists r w' r' w'',
    downsample_labels cell (single 300) = (Ok r, w') /\
    downsample_labels r w' = (Ok r', w'') /\
    arr_dtype r' = arr_dtype r /\ shape r' = shape r /\
    elements (heap w') r = Some [300%Z] /\
    elements (heap w'') r' = Some [300%Z].
Proof.
  split; [reflexivity|]. split; [reflexivity|].
  apply (downsample_labels_idempotent (single 300) cell [300%Z] eq_refl).
  - simpl. lia.
  - reflexivity.
  - intros v Hv. apply list_elem_of_singleton in Hv. lia.
Defined.

Lemma check_consistency_keeps_arrays_witness :
  valid three_matrices matrix_1x2 = true /\
  forall idx,
    peek (heap (check_consistency (Some matrix_1x1) None
                  (Some matrix_negative) three_matrices).2) matrix_1x2 idx
    = peek (heap three_matrices) matrix_1x2 idx.
Proof.
  split; [reflexivity|].
  apply (check_consistency_keeps_arrays three_matrices (Some matrix_1x1) None
           (Some matrix_negative) matrix_1x2).
  reflexivity.
Defined.

Lemma check_consistency_order_witness :
  present_labels three_matrices (Some vector_1) = true /\
  present_labels three_matrices (Some matrix_negative) = true /\
  (check_consistency (Some vector_1) None (Some matrix_negative)
     three_matrices).1 = Raise (AssertionError None) /\
  (check_consistency (Some vector_1) None None three_matrices).1
  = Raise (AssertionError (Some (dimensions_message "Segmented" 1))).
Proof.
  split; [reflexivity|]. split; [reflexivity|]. split.
  - apply (check_consistency_order three_matrices (Some vector_1) None
             (Some matrix_negative) eq_refl eq_refl eq_refl).
    right. right. exists matrix_negative, [0; 0], (-1)%Z.
    split; [reflexivity|]. split; [reflexivity|]. split; [reflexivity|lia].
  - apply (proj2 (check_consistency_order three_matrices (Some vector_1) None
                    None eq_refl eq_refl eq_refl)) with (a := vector_1).
    + apply nonneg_of_true; reflexivity.
    + apply nonneg_of_true; reflexivity.
    + apply nonneg_of_true; reflexivity.
    + reflexivity.
    + unfold ndim, vector_1. simpl. lia.
Defined.

Lemma check_consistency_accepts_uniform_witness :
  present_valid three_matrices (Some matrix_1x1) = true /\
  (check_consistency (Some matrix_1x1) (Some matrix_1x1) None
     three_matrices).1 = Ok tt /\
  forall x y,
    Some x ∈ [Some matrix_1x1; Some matrix_1x1; None] ->
    Some y ∈ [Some matrix_1x1; Some matrix_1x1; None] ->
    ndim x = 2 /\ shape x = shape y.
Proof.
  split; [reflexivity|]. split; [reflexivity|].
  apply (check_consistency_accepts_uniform three_matrices (Some matrix_1x1)
           (Some matrix_1x1) None eq_refl eq_refl eq_refl eq_refl).
  discriminate.
Defined.

Lemma crop_labels_and_image_first_two_axes_witness :
  shape labels_2x2 = [2; 2] /\ shape rgb_2x2 = [2; 2; 3] /\
  exists l i,
    crop_labels_and_image labels_2x2 rgb_2x2 labels_and_rgb
    = (Ok (l, i), labels_and_rgb) /\
    shape l = [Nat.min 2 2; Nat.min 2 2] /\
    shape i = [Nat.min 2 2; Nat.min 2 2; 3] /\
    (forall idx,
       peek (heap labels_and_rgb) l idx
       = peek (heap labels_and_rgb) labels_2x2 idx) /\
    (forall idx,
       peek (heap labels_and_rgb) i idx
       = peek (heap labels_and_rgb) rgb_2x2 idx).
Proof.
  split; [reflexivity|]. split; [reflexivity|].
  apply (crop_labels_and_image_first_two_axes labels_and_rgb labels_2x2
           rgb_2x2 2 2 [] 2 2 [3] eq_refl); [simpl; lia|reflexivity].
Defined.

Lemma crop_labels_and_image_too_few_axes_witness :
  ndim vector_1 < 2 /\
  crop_labels_and_image vector_1 matrix_1x1 three_matrices
  = (Raise IndexError, three_matrices).
Proof.
  assert (ndim vector_1 < 2) as Hn by (unfold ndim, vector_1; simpl; lia).
  split; [exact Hn|].
  apply (crop_labels_and_image_too_few_axes three_matrices vector_1
           matrix_1x1).
  by left.
Defined.

Lemma crop_labels_and_image_idempotent_witness :
  croppable labels_2x2 rgb_2x2 /\
  exists l i,
    crop_labels_and_image labels_2x2 rgb_2x2 labels_and_rgb
    = (Ok (l, i), labels_and_rgb) /\
    crop_labels_and_image l i labels_and_rgb = (Ok (l, i), labels_and_rgb).
Proof.
  assert (croppable labels_2x2 rgb_2x2) as Hc
    by (left; split; [|right]; reflexivity).
  split; [exact Hc|].
  exact (crop_labels_and_image_idempotent labels_and_rgb labels_2x2 rgb_2x2
           Hc).
Defined.

Lemma crop_labels_and_image_aliases_witness :
  croppable labels_2x2 rgb_2x2 /\
  valid labels_and_rgb labels_2x2 = true /\
  valid labels_and_rgb rgb_2x2 = true /\
  exists l i,
    crop_labels_and_image labels_2x2 rgb_2x2 labels_and_rgb
    = (Ok (l, i), labels_and_rgb) /\
    (forall idx v, in_bounds (shape l) idx = true ->
       exists w2,
         numpy.setitem_scalar l idx v labels_and_rgb = (Ok tt, w2) /\
         peek (heap w2) labels_2x2 idx = Some v) /\
    (forall idx v, in_bounds (shape i) idx = true ->
       exists w2,
         numpy.setitem_scalar i idx v labels_and_rgb = (Ok tt, w2) /\
         peek (heap w2) rgb_2x2 idx = Some v).
Proof.
  assert (croppable labels_2x2 rgb_2x2) as Hc
    by (left; split; [|right]; reflexivity).
  split; [exact Hc|]. split; [reflexivity|]. split; [reflexivity|].
  exact (crop_labels_and_image_aliases labels_and_rgb labels_2x2 rgb_2x2
           Hc eq_refl eq_refl).
Defined.

Lemma size_similarly_keeps_arrays_witness :
  valid three_matrices matrix_1x1 = true /\
  forall idx,
    peek (heap (size_similarly matrix_1x2 matrix_1x1 three_matrices).2)
      matrix_1x1 idx
    = peek (heap three_matrices) matrix_1x1 idx.
Proof.
  split; [reflexivity|].
  apply (size_similarly_keeps_arrays three_matrices matrix_1x2 matrix_1x1
           matrix_1x1).
  reflexivity.
Defined.

Lemma size_similarly_crops_witness :
  valid three_matrices matrix_1x2 = true /\
  exists r m w1,
    size_similarly matrix_1x1 matrix_1x2 three_matrices = (Ok (r, m), w1) /\
    shape r = [1; 1] /\ shape m = [1; 1] /\
    (forall idx, in_bounds (shape r) idx = true ->
       peek (heap w1) r idx = peek (heap three_matrices) matrix_1x2 idx) /\
    (forall idx, in_bounds [1; 1] idx = true ->
       peek (heap w1) m idx = Some 1%Z).
Proof.
  split; [reflexivity|].
  apply (size_similarly_crops three_matrices matrix_1x1 matrix_1x2 1 1 1 2 []
           eq_refl eq_refl eq_refl); [discriminate|lia|lia].
Defined.

Lemma size_similarly_pads_witness :
  valid three_matrices matrix_1x1 = true /\
  exists r m w1,
    size_similarly matrix_1x2 matrix_1x1 three_matrices = (Ok (r, m), w1) /\
    shape r = [1; 2] /\ arr_dtype r = arr_dtype matrix_1x1 /\
    shape m = [1; 2] /\
    (forall idx, in_bounds (shape r) idx = true ->
       peek (heap w1) r idx
       = if in_bounds (shape matrix_1x1) idx
         then peek (heap three_matrices) matrix_1x1 idx else Some 0%Z) /\
    (forall idx, in_bounds [1; 2] idx = true ->
       peek (heap w1) m idx
       = Some (if in_bounds [1; 1] idx then 1%Z else 0%Z)).
Proof.
  split; [reflexivity|].
  exact (size_similarly_pads three_matrices matrix_1x2 matrix_1x1 1 2 1 1 []
           eq_refl eq_refl eq_refl eq_refl).
Defined.

Lemma size_similarly_ones_or_copy_witness :
  valid three_matrices matrix_1x1 = true /\
  exists r m w1,
    size_similarly matrix_1x2 matrix_1x1 three_matrices = (Ok (r, m), w1) /\
    ((forall idx, in_bounds (shape m) idx = true ->
        peek (heap w1) m idx = Some 1%Z) \/
     base r = length (heap three_matrices)).
Proof.
  split; [reflexivity|].
  exact (size_similarly_ones_or_copy three_matrices matrix_1x2 matrix_1x1
           1 2 1 1 [] eq_refl eq_refl eq_refl).
Defined.

Lemma size_similarly_too_few_axes_witness :
  ndim vector_1 < 2 /\
  (size_similarly vector_1 matrix_1x1 three_matrices).1 = Raise IndexError.
Proof.
  assert (ndim vector_1 < 2) as Hn by (unfold ndim, vector_1; simpl; lia).
  split; [exact Hn|].
  apply (size_similarly_too_few_axes three_matrices vector_1 matrix_1x1);
    [discriminate|by left].
Defined.

Lemma size_similarly_idempotent_witness :
  valid three_matrices matrix_1x1 = true /\
  exists r m w1 m' w2,
    size_similarly matrix_1x2 matrix_1x1 three_matrices = (Ok (r, m), w1) /\
    size_similarly matrix_1x2 r w1 = (Ok (r, m'), w2) /\
    shape m' = shape r /\
    (forall idx, in_bounds (shape r) idx = true ->
       peek (heap w2) m' idx = Some 1%Z).
Proof.
  split; [reflexivity|].
  exact (size_similarly_idempotent three_matrices matrix_1x2 matrix_1x1
           1 2 1 1 [] eq_refl eq_refl eq_refl).
Defined.

Lemma size_similarly_volume_rejected_witness :
  shape slab_labels = [3; 2; 3] /\ shape slab_secondary = [2; 2] /\
  (size_similarly slab_labels slab_secondary slab).1 = Raise ValueError.
Proof.
  split; [reflexivity|]. split; [reflexivity|].
  apply (size_similarly_volume_rejected slab slab_labels slab_secondary
           3 2 3 2 2 eq_refl eq_refl eq_refl).
  simpl. lia.
Defined.

Lemma overlay_labels_keeps_arrays_witness :
  valid scene scene_pixels = true /\
  forall idx,
    peek (heap (overlay_labels any_cmap ramp paint seed_is_state rotation
                  same_bits scene_pixels scene_labels 0 None None scene).2)
      scene_pixels idx
    = peek (heap scene) scene_pixels idx.
Proof.
  split; [reflexivity|].
  apply (proj2 (overlay_labels_keeps_arrays any_cmap ramp paint seed_is_state
                  rotation same_bits ramp_allocates ramp_new paint_allocates
                  scene_pixels scene_labels 0%Z None None scene)).
  reflexivity.
Defined.

Lemma overlay_labels_no_elements_witness :
  elements (heap nothing) labels_0x0 = Some [] /\
  overlay_labels any_cmap ramp paint seed_is_state rotation same_bits
    pixels_0x0 labels_0x0 0 None None nothing
  = (Raise ValueError, nothing).
Proof.
  split; [reflexivity|].
  apply (overlay_labels_no_elements any_cmap ramp paint seed_is_state
           rotation same_bits pixels_0x0 labels_0x0 0%Z None nothing).
  reflexivity.
Defined.

Lemma overlay_labels_seed_out_of_range_witness :
  ~ (0 <= -1 < 2 ^ 32)%Z /\
  (forall r,
     (overlay_labels any_cmap ramp paint seed_is_state rotation same_bits
        scene_pixels scene_labels 0 None (Some (-1)%Z) scene).1 <> Ok r) /\
  rng (overlay_labels any_cmap ramp paint seed_is_state rotation same_bits
         scene_pixels scene_labels 0 None (Some (-1)%Z) scene).2
  = rng scene.
Proof.
  assert (~ (0 <= -1 < 2 ^ 32)%Z) as Hs by lia.
  split; [exact Hs|].
  exact (overlay_labels_seed_out_of_range any_cmap ramp paint seed_is_state
           rotation same_bits scene_pixels scene_labels 0%Z None (-1)%Z scene
           Hs).
Defined.

Lemma colors_generator_witness :
  let run :=
    _colors any_cmap ramp seed_is_state rotation scene_labels None
      (Some 5%Z) scene in
  run.1 = Ok (NDArray 3 0 [3; 3] [4; 1] float64) /\
  exists n rest,
    shape (NDArray 3 0 [3; 3] [4; 1] float64) = n :: rest /\
    rng run.2 = (rotation (seed_is_state 5) n).2.
Proof.
  intros run. split; [reflexivity|].
  apply (colors_generator any_cmap ramp seed_is_state rotation scene_labels
           None (Some 5%Z) scene (NDArray 3 0 [3; 3] [4; 1] float64) run.2).
  reflexivity.
Defined.

Lemma overlay_labels_volume_result_witness :
  let run :=
    overlay_labels any_cmap ramp paint seed_is_state rotation same_bits
      volume_pixels volume_labels 0 None None volume in
  let r := NDArray 5 0 [1; 2; 2; 3] [12; 6; 3; 1] float32 in
  ndim volume_labels = 3 /\
  run.1 = Ok r /\
  shape r = shape volume_labels ++ [3] /\ arr_dtype r = float32 /\
  length (heap volume) <= base r.
Proof.
  intros run r. split; [reflexivity|]. split; [reflexivity|].
  apply (overlay_labels_volume_result any_cmap ramp paint seed_is_state
           rotation same_bits ramp_allocates ramp_new volume_pixels
           volume_labels 0%Z None None volume r run.2); reflexivity.
Defined.

Lemma overlay_labels_too_many_planes_witness :
  ndim volume_labels = 3 /\
  forall r,
    (overlay_labels any_cmap ramp paint seed_is_state rotation same_bits
       volume_pixels_2 volume_labels 0 None None volume).1 <> Ok r.
Proof.
  split; [reflexivity|].
  apply (overlay_labels_too_many_planes any_cmap ramp paint seed_is_state
           rotation same_bits volume_pixels_2 volume_labels 0%Z None None
           volume 1 [2; 2] 2 [2; 2]); [reflexivity..|lia].
Defined.
